(** * The ANSI escape sequence processor of termstation

    A shallow embedding of [backend/scripts/ansi_processor.py]: the class
    [ANSIProcessor] (a character grid, a cursor, the interpreter of escape
    sequences, the scanner [process_content] and the extraction of the final
    text), followed by the properties of the specification.

    Conventions of the embedding.
    - A Python character is its code point ([N]); a [str] is the list of its
      characters.
    - Python integers are [Z].  The cursor and [max_cols] are plain Python
      integers in the source, so they are [Z] here and nothing in their type
      keeps them non-negative.
    - A method that returns [None] maps a state to a [result state]; a method
      that returns a value maps a state to the value and the state it leaves.
    - Exceptions are the error side of [result].  A failure carries no
      state: an exception leaves [process_content], and [main] reports it
      and exits without using the processor again. *)

From Stdlib Require Import String Ascii.
From Stdlib Require Import List ZArith NArith Lia Bool.
Import ListNotations.

Open Scope Z_scope.

(** ** Characters and strings *)

Definition char := N.
Definition str := list char.

Definition ESC : char := 27%N.
Definition SP : char := 32%N.
Definition LF : char := 10%N.
Definition CR : char := 13%N.
Definition TAB : char := 9%N.

(** [ord(char)] *)
Definition ord (c : char) : Z := Z.of_N c.

(** The characters of a literal, to write inputs and outputs legibly. *)
Fixpoint codes (s : string) : str :=
  match s with
  | EmptyString => []
  | String a s' => N_of_ascii a :: codes s'
  end.

Definition chr (a : ascii) : char := N_of_ascii a.
Arguments chr a%_char.
Arguments codes s%_string.

(** ** Exceptions *)

Inductive exn : Type :=
| ValueError   (* int() on a text that is not an integer literal *)
| IndexError   (* list index out of range *)
| OutOfFuel.   (* artefact of the embedding of the scanner's while loop; see [process_loop_never_out_of_fuel] *)

Inductive result (A : Type) : Type :=
| OK (a : A)
| Error (e : exn).
Arguments OK {A} a.
Arguments Error {A} e.

Definition bind {A B : Type} (m : result A) (k : A -> result B) : result B :=
  match m with
  | OK a => k a
  | Error e => Error e
  end.

Notation "x <- m ;; k" := (bind m (fun x => k))
  (at level 61, m at next level, right associativity).

(** ** Python list and string primitives *)

(** [range(a, b)] *)
Definition py_range (a b : Z) : list Z :=
  map (fun k => a + Z.of_nat k) (seq 0 (Z.to_nat (b - a))).

(** The position an index denotes in a list of length [len]: negative
    indices count from the end, anything else out of range raises. *)
Definition py_index (len : nat) (i : Z) : result nat :=
  if (0 <=? i) && (i <? Z.of_nat len) then OK (Z.to_nat i)
  else if (i <? 0) && (- Z.of_nat len <=? i) then OK (Z.to_nat (Z.of_nat len + i))
  else Error IndexError.

Fixpoint set_nth {A : Type} (n : nat) (x : A) (l : list A) : list A :=
  match l, n with
  | [], _ => []
  | _ :: t, O => x :: t
  | h :: t, S n' => h :: set_nth n' x t
  end.

(** [l[i]] *)
Definition py_getitem {A : Type} (l : list A) (i : Z) : result A :=
  n <- py_index (length l) i ;;
  match nth_error l n with
  | Some x => OK x
  | None => Error IndexError
  end.

(** [l[i] = x] *)
Definition py_setitem {A : Type} (l : list A) (i : Z) (x : A) : result (list A) :=
  n <- py_index (length l) i ;;
  OK (set_nth n x l).

(** [[x] * n]: empty when [n <= 0] *)
Definition py_repeat {A : Type} (x : A) (n : Z) : list A :=
  repeat x (Z.to_nat n).

(** [s.endswith(c)] for a one-character [c] *)
Definition endswith (s : str) (c : char) : bool :=
  match rev s with
  | [] => false
  | x :: _ => N.eqb x c
  end.

(** [s[:-1]] *)
Definition init (s : str) : str := removelast s.

(** [s.split(sep)] for a one-character separator: never empty. *)
Fixpoint split (sep : char) (s : str) : list str :=
  match s with
  | [] => [[]]
  | c :: s' =>
      if N.eqb c sep then [] :: split sep s'
      else match split sep s' with
           | [] => [[c]]
           | w :: ws => (c :: w) :: ws
           end
  end.

(** [sep.join(lines)] *)
Fixpoint join (sep : str) (lines : list str) : str :=
  match lines with
  | [] => []
  | [l] => l
  | l :: ls => l ++ sep ++ join sep ls
  end.

Definition is_digit (c : char) : bool := (48 <=? c)%N && (c <=? 57)%N.

Definition is_letter (c : char) : bool :=
  ((97 <=? c)%N && (c <=? 122)%N) || ((65 <=? c)%N && (c <=? 90)%N).

(** The class [[0-9;]] of the pattern. *)
Definition is_param (c : char) : bool := is_digit c || N.eqb c 59.

(** The value of a run of decimal digits, most significant first. *)
Fixpoint digits_value (acc : Z) (s : str) : option Z :=
  match s with
  | [] => Some acc
  | c :: s' =>
      if is_digit c then digits_value (10 * acc + (ord c - 48)) s' else None
  end.

(** [int(s)] on the texts the scanner can hand to it.  A match of
    [ansi_pattern] puts only digits, [;] and [?] before the terminating
    letter, and over that alphabet [int] accepts exactly the non-empty runs
    of digits.  What [int] accepts besides (a sign, surrounding blanks,
    underscores between digits, non-ASCII decimal digits) cannot occur there
    and is rejected by this definition; the theorems apply it to matched
    sequences only.  The interpreter's configurable limit on the number of
    digits of a literal is not modelled. *)
Definition py_int (s : str) : result Z :=
  match s with
  | [] => Error ValueError
  | _ => match digits_value 0 s with
         | Some n => OK n
         | None => Error ValueError
         end
  end.

(** The characters [str.rstrip()] removes: those for which [str.isspace]
    holds. *)
Definition is_space (c : char) : bool :=
  ((9 <=? c)%N && (c <=? 13)%N) || ((28 <=? c)%N && (c <=? 32)%N)
  || N.eqb c 133 || N.eqb c 160 || N.eqb c 5760
  || ((8192 <=? c)%N && (c <=? 8202)%N)
  || N.eqb c 8232 || N.eqb c 8233 || N.eqb c 8239 || N.eqb c 8287
  || N.eqb c 12288.

(** [s.rstrip()] *)
Fixpoint rstrip (s : str) : str :=
  match s with
  | [] => []
  | c :: s' =>
      match rstrip s' with
      | [] => if is_space c then [] else [c]
      | t => c :: t
      end
  end.

(** ** The processor *)

Record state : Type := mkState {
  screen : list (list char);
  cursor_row : Z;
  cursor_col : Z;
  max_cols : Z;
  max_rows : Z
}.

(** [__init__] *)
Definition init_state : state :=
  {| screen := []; cursor_row := 0; cursor_col := 0;
     max_cols := 200; max_rows := 100 |}.

Definition with_screen (scr : list (list char)) (st : state) : state :=
  {| screen := scr; cursor_row := cursor_row st; cursor_col := cursor_col st;
     max_cols := max_cols st; max_rows := max_rows st |}.

Definition with_cursor_row (r : Z) (st : state) : state :=
  {| screen := screen st; cursor_row := r; cursor_col := cursor_col st;
     max_cols := max_cols st; max_rows := max_rows st |}.

Definition with_cursor_col (c : Z) (st : state) : state :=
  {| screen := screen st; cursor_row := cursor_row st; cursor_col := c;
     max_cols := max_cols st; max_rows := max_rows st |}.

Definition with_max_cols (m : Z) (st : state) : state :=
  {| screen := screen st; cursor_row := cursor_row st;
     cursor_col := cursor_col st; max_cols := m; max_rows := max_rows st |}.

(** The loop [while len(self.screen) <= row: self.screen.append([' '] *
    self.max_cols)]: [n] bounds the iterations that remain; each one
    appends a row of its own. *)
Fixpoint append_rows (n : nat) (row width : Z) (scr : list (list char))
  : list (list char) :=
  match n with
  | O => scr
  | S n' =>
      if Z.of_nat (length scr) <=? row
      then append_rows n' row width (scr ++ [py_repeat SP width])
      else scr
  end.

(** [ensure_screen_size]: the row loop runs at most [row + 1 - len] times. *)
Definition ensure_screen_size (row col : Z) (st : state) : state :=
  let scr := append_rows (Z.to_nat (row + 1 - Z.of_nat (length (screen st))))
                         row (max_cols st) (screen st) in
  if max_cols st <=? col then
    let new_cols := col + 50 in
    with_max_cols new_cols
      (with_screen
         (map (fun screen_row =>
                 screen_row ++ py_repeat SP (new_cols - Z.of_nat (length screen_row)))
              scr) st)
  else with_screen scr st.

Definition set_cursor (row col : Z) (st : state) : state :=
  let st1 := with_cursor_row (Z.max 0 row) st in
  let st2 := with_cursor_col (Z.max 0 col) st1 in
  ensure_screen_size (cursor_row st2) (cursor_col st2) st2.

Definition move_cursor_up (lines : Z) (st : state) : state :=
  with_cursor_row (Z.max 0 (cursor_row st - lines)) st.

Definition move_cursor_down (lines : Z) (st : state) : state :=
  let st1 := with_cursor_row (cursor_row st + lines) st in
  ensure_screen_size (cursor_row st1) (cursor_col st1) st1.

Definition move_cursor_forward (cols : Z) (st : state) : state :=
  let st1 := with_cursor_col (cursor_col st + cols) st in
  ensure_screen_size (cursor_row st1) (cursor_col st1) st1.

Definition move_cursor_backward (cols : Z) (st : state) : state :=
  with_cursor_col (Z.max 0 (cursor_col st - cols)) st.

(** [for i in idxs: row[i] = ' '] *)
Fixpoint blank_cells (idxs : list Z) (row : list char) : result (list char) :=
  match idxs with
  | [] => OK row
  | i :: idxs' => row' <- py_setitem row i SP ;; blank_cells idxs' row'
  end.

(** [clear_line]: the row is a mutable list, so blanking it through the
    local name [row] changes the row of the screen it was read from. *)
Definition clear_line (mode : Z) (st : state) : result state :=
  if cursor_row st <? Z.of_nat (length (screen st)) then
    n <- py_index (length (screen st)) (cursor_row st) ;;
    row <- py_getitem (screen st) (cursor_row st) ;;
    let len := Z.of_nat (length row) in
    if mode =? 0 then
      row' <- blank_cells (py_range (cursor_col st) len) row ;;
      OK (with_screen (set_nth n row' (screen st)) st)
    else if mode =? 1 then
      row' <- blank_cells (py_range 0 (Z.min (cursor_col st + 1) len)) row ;;
      OK (with_screen (set_nth n row' (screen st)) st)
    else if mode =? 2 then
      row' <- blank_cells (py_range 0 len) row ;;
      OK (with_screen (set_nth n row' (screen st)) st)
    else OK st
  else OK st.

Definition clear_screen (mode : Z) (st : state) : state :=
  if mode =? 2 then
    with_cursor_col 0 (with_cursor_row 0 (with_screen [] st))
  else st.

(** [self.screen[self.cursor_row][self.cursor_col] = char] *)
Definition write_cell (ch : char) (st : state) : result state :=
  n <- py_index (length (screen st)) (cursor_row st) ;;
  row <- py_getitem (screen st) (cursor_row st) ;;
  row' <- py_setitem row (cursor_col st) ch ;;
  OK (with_screen (set_nth n row' (screen st)) st).

(** The body of the loop of [insert_text], for one character. *)
Definition insert_char (ch : char) (st : state) : result state :=
  if N.eqb ch LF then
    let st1 := with_cursor_col 0 (with_cursor_row (cursor_row st + 1) st) in
    OK (ensure_screen_size (cursor_row st1) (cursor_col st1) st1)
  else if N.eqb ch CR then
    OK (with_cursor_col 0 st)
  else if N.eqb ch TAB then
    let st1 := with_cursor_col ((cursor_col st / 8 + 1) * 8) st in
    OK (ensure_screen_size (cursor_row st1) (cursor_col st1) st1)
  else if 32 <=? ord ch then
    let st1 := ensure_screen_size (cursor_row st) (cursor_col st) st in
    st2 <- write_cell ch st1 ;;
    OK (with_cursor_col (cursor_col st2 + 1) st2)
  else OK st.

Fixpoint insert_text (text : str) (st : state) : result state :=
  match text with
  | [] => OK st
  | ch :: text' => st' <- insert_char ch st ;; insert_text text' st'
  end.

(** [int(p) if p else default] *)
Definition int_or (p : str) (default : Z) : result Z :=
  match p with
  | [] => OK default
  | _ => py_int p
  end.

(** [process_escape_sequence]; [sequence] is the match without its escape
    character. *)
Definition process_escape_sequence (sequence : str) (st : state) : result state :=
  match sequence with
  | 91%N :: csi_content =>
      if endswith csi_content (chr "H") || endswith csi_content (chr "f") then
        let params := match init csi_content with
                      | [] => [codes "1"; codes "1"]
                      | p => split (chr ";") p
                      end in
        r <- py_int (match nth 0 params [] with [] => codes "1" | p => p end) ;;
        c <- py_int (match nth_error params 1 with
                     | Some (x :: p) => x :: p
                     | _ => codes "1"
                     end) ;;
        OK (set_cursor (r - 1) (c - 1) st)
      else if endswith csi_content (chr "A") then
        lines <- int_or (init csi_content) 1 ;;
        OK (move_cursor_up lines st)
      else if endswith csi_content (chr "B") then
        lines <- int_or (init csi_content) 1 ;;
        OK (move_cursor_down lines st)
      else if endswith csi_content (chr "C") then
        cols <- int_or (init csi_content) 1 ;;
        OK (move_cursor_forward cols st)
      else if endswith csi_content (chr "D") then
        cols <- int_or (init csi_content) 1 ;;
        OK (move_cursor_backward cols st)
      else if endswith csi_content (chr "G") then
        col <- int_or (init csi_content) 1 ;;
        let st1 := with_cursor_col (Z.max 0 (col - 1)) st in
        OK (ensure_screen_size (cursor_row st1) (cursor_col st1) st1)
      else if endswith csi_content (chr "K") then
        mode <- int_or (init csi_content) 0 ;;
        clear_line mode st
      else if endswith csi_content (chr "J") then
        mode <- int_or (init csi_content) 0 ;;
        OK (clear_screen mode st)
      else if endswith csi_content (chr "m") then
        OK st
      else OK st
  | _ => OK st
  end.

(** *** The scanner *)

(** The longest prefix of characters satisfying [p], and what follows. *)
Fixpoint span (p : char -> bool) (s : str) : str * str :=
  match s with
  | [] => ([], [])
  | c :: s' =>
      if p c then let (run, rest) := span p s' in (c :: run, rest)
      else ([], s)
  end.

(** A greedy starred class followed by one character of a class disjoint
    from it (here digits and [;], then a letter): the star takes the whole
    run, and giving characters back cannot help, since a character of the
    run is not of the closing class. *)
Definition match_run (p q : char -> bool) (s : str) : option str :=
  let (run, rest) := span p s in
  match rest with
  | c :: _ => if q c then Some (run ++ [c]) else None
  | [] => None
  end.

Definition is_hl (c : char) : bool := N.eqb c 104 || N.eqb c 108.
Definition is_charset (c : char) : bool := N.eqb c 65 || N.eqb c 66 || N.eqb c 48.

(** [re.match(ansi_pattern, s)], giving [match.group(0)]: the four
    alternatives of the pattern are tried in the order they are written and
    the first that matches wins. *)
Definition re_match_ansi (s : str) : option str :=
  let alt1 := match s with
              | 27%N :: 91%N :: t =>
                  option_map (fun m => ESC :: 91%N :: m) (match_run is_param is_letter t)
              | _ => None
              end in
  let alt2 := match s with
              | 27%N :: 91%N :: 63%N :: t =>
                  option_map (fun m => ESC :: 91%N :: 63%N :: m) (match_run is_param is_letter t)
              | _ => None
              end in
  let alt3 := match s with
              | 27%N :: 91%N :: 63%N :: t =>
                  option_map (fun m => ESC :: 91%N :: 63%N :: m) (match_run is_digit is_hl t)
              | _ => None
              end in
  let alt4 := match s with
              | 27%N :: 40%N :: c :: _ =>
                  if is_charset c then Some [ESC; 40%N; c] else None
              | _ => None
              end in
  match alt1 with
  | Some m => Some m
  | None =>
      match alt2 with
      | Some m => Some m
      | None => match alt3 with
                | Some m => Some m
                | None => alt4
                end
      end
  end.

(** The while loop of [process_content] on [content[i:]]: the index [i] of
    the source is the number of characters already dropped from the input.
    Every iteration consumes at least one character, so [fuel] equal to the
    length of the input never runs out. *)
Fixpoint process_loop (fuel : nat) (content : str) (st : state) : result state :=
  match content with
  | [] => OK st
  | c :: rest =>
      match fuel with
      | O => Error OutOfFuel
      | S fuel' =>
          let found :=
            if N.eqb c ESC && (1 <? Z.of_nat (length content))
            then re_match_ansi content else None in
          match found with
          | Some sequence =>
              st' <- process_escape_sequence (tl sequence) st ;;
              process_loop fuel' (skipn (length sequence) content) st'
          | None =>
              st' <- (if negb (N.eqb c ESC) then insert_text [c] st else OK st) ;;
              process_loop fuel' rest st'
          end
      end
  end.

(** *** The final text *)

(** [any(char != ' ' for char in row)] *)
Definition has_content (row : list char) : bool :=
  existsb (fun ch => negb (N.eqb ch SP)) row.

(** The first loop of [get_final_text], from row index [row_idx] on. *)
Fixpoint last_content_row_from (row_idx : Z) (last : Z) (rows : list (list char)) : Z :=
  match rows with
  | [] => last
  | row :: rows' =>
      last_content_row_from (row_idx + 1)
        (if has_content row then row_idx else last) rows'
  end.

(** [for col_idx in range(len(row) - 1, -1, -1)] with its [break]: [n]
    is [col_idx + 1]. *)
Fixpoint last_char_from (n : nat) (row : list char) : Z :=
  match n with
  | O => -1
  | S n' =>
      match nth_error row n' with
      | Some ch => if negb (N.eqb ch SP) then Z.of_nat n' else last_char_from n' row
      | None => last_char_from n' row
      end
  end.

Definition row_line (row : list char) : str :=
  let last_char := last_char_from (length row) row in
  let line := if 0 <=? last_char then firstn (Z.to_nat (last_char + 1)) row else [] in
  rstrip line.

(** [while result_lines and not result_lines[-1]: result_lines.pop()] *)
Fixpoint pop_empty (result_lines : list str) : list str :=
  match result_lines with
  | [] => []
  | l :: ls =>
      match pop_empty ls with
      | [] => match l with [] => [] | _ => [l] end
      | t => l :: t
      end
  end.

Definition result_lines_of (st : state) : list str :=
  let last_content_row := last_content_row_from 0 (-1) (screen st) in
  pop_empty (map row_line (firstn (Z.to_nat (last_content_row + 1)) (screen st))).

(** [get_final_text]: the text, and the state the call leaves.  The method
    assigns to no attribute of [self]; it reads the rows, and the slice, the
    join and [rstrip] build new strings; the one list it changes is its local
    [result_lines]. *)
Definition get_final_text (st : state) : str * state :=
  (join [LF] (result_lines_of st), st).

(** [process_content], on the processor in state [st]. *)
Definition process_content (content : str) (st : state) : result (str * state) :=
  st' <- process_loop (length content) content st ;;
  OK (get_final_text st').

(** The text produced for an input by a fresh processor, as [main] does. *)
Definition run (content : str) : result str :=
  r <- process_content content init_state ;; OK (fst r).

(** ** Notions of the specification *)

(** The character of the cell at row [r], column [c], when the grid has one. *)
Definition cell (st : state) (r c : nat) : option char :=
  match nth_error (screen st) r with
  | Some row => nth_error row c
  | None => None
  end.

(** Every row is as long as the standing width (no row at all has a
    negative length, whatever [max_cols] holds). *)
Definition rect (st : state) : Prop :=
  Forall (fun row => Z.of_nat (length row) = Z.max 0 (max_cols st)) (screen st).

Definition cursor_ok (st : state) : Prop :=
  0 <= cursor_row st /\ 0 <= cursor_col st.

Definition wf (st : state) : Prop := cursor_ok st /\ rect st.

Definition printable_char (c : char) : Prop := 32 <= ord c.

Definition printable (st : state) : Prop :=
  Forall (Forall printable_char) (screen st).

(** The operations of the emulator, one per method of the class. *)
Inductive op : Type :=
| EnsureScreenSize (row col : Z)
| SetCursor (row col : Z)
| MoveCursorUp (lines : Z)
| MoveCursorDown (lines : Z)
| MoveCursorForward (cols : Z)
| MoveCursorBackward (cols : Z)
| ClearLine (mode : Z)
| ClearScreen (mode : Z)
| InsertText (text : str)
| ProcessEscapeSequence (sequence : str)
| GetFinalText.

Definition run_op (o : op) (st : state) : result state :=
  match o with
  | EnsureScreenSize row col => OK (ensure_screen_size row col st)
  | SetCursor row col => OK (set_cursor row col st)
  | MoveCursorUp lines => OK (move_cursor_up lines st)
  | MoveCursorDown lines => OK (move_cursor_down lines st)
  | MoveCursorForward cols => OK (move_cursor_forward cols st)
  | MoveCursorBackward cols => OK (move_cursor_backward cols st)
  | ClearLine mode => clear_line mode st
  | ClearScreen mode => OK (clear_screen mode st)
  | InsertText text => insert_text text st
  | ProcessEscapeSequence sequence => process_escape_sequence sequence st
  | GetFinalText => OK (snd (get_final_text st))
  end.

Fixpoint run_ops (ops : list op) (st : state) : result state :=
  match ops with
  | [] => OK st
  | o :: ops' => st' <- run_op o st ;; run_ops ops' st'
  end.

(** A sequence as [process_content] passes it to [process_escape_sequence]:
    a match of [ansi_pattern] without its first character. *)
Definition scanned (sequence : str) : Prop :=
  exists content, re_match_ansi content = Some (ESC :: sequence).

(** The arguments are counts: the two movements that add their argument to
    the cursor get a magnitude, as the scanner can only supply (the pattern
    has no sign); the other operations take any integer and any text. *)
Definition count_ok (o : op) : Prop :=
  match o with
  | MoveCursorDown lines => 0 <= lines
  | MoveCursorForward cols => 0 <= cols
  | ProcessEscapeSequence sequence => scanned sequence
  | _ => True
  end.

(** The rows after the row loop of [ensure_screen_size]. *)
Definition grown (row col : Z) (st : state) : list (list char) :=
  screen st ++ repeat (py_repeat SP (max_cols st))
                      (Z.to_nat (row + 1 - Z.of_nat (length (screen st)))).

(** [st'] is [st] with one row replaced by a row of the same length, whose
    characters are the old ones or [x]. *)
Definition row_updated (x : char) (st st' : state) : Prop :=
  exists (n : nat) (row row' : list char),
    In row (screen st) /\ length row' = length row /\
    (forall P : char -> Prop, P x -> Forall P row -> Forall P row') /\
    st' = with_screen (set_nth n row' (screen st)) st.

(** A result of the program itself: a value or a Python exception. *)
Definition genuine {A : Type} (r : result A) : Prop := r <> Error OutOfFuel.

(** [n] calls of [get_final_text] in a row: the texts returned, in order,
    and the state left by the last call. *)
Fixpoint get_final_text_times (n : nat) (st : state) : list str * state :=
  match n with
  | O => ([], st)
  | S n' =>
      let (out, st1) := get_final_text st in
      let (outs, st2) := get_final_text_times n' st1 in
      (out :: outs, st2)
  end.

(** *** States and runs used as examples *)

(** A grid of one row of width 2 that holds "ab", the cursor after it. *)
Definition example_grid : state :=
  {| screen := [codes "ab"]; cursor_row := 0; cursor_col := 2;
     max_cols := 2; max_rows := 100 |}.

(** Up by a million, back by seven, two characters, back by ninety-nine, a
    line feed and up by three. *)
Definition example_ops : list op :=
  [MoveCursorUp 1000000; MoveCursorBackward 7; InsertText (codes "ab");
   MoveCursorBackward 99; InsertText [LF]; MoveCursorUp 3].

(** A bell, a tab, a line feed and a form feed among letters. *)
Definition example_controls : str :=
  [chr "a"; 7%N; TAB; chr "b"; LF; 12%N; chr "c"].

(** *** Notions of the further properties *)

(** A text that is empty or ends with a character [rstrip] keeps. *)
Definition ends_clean (s : str) : Prop :=
  match rev s with
  | [] => True
  | c :: _ => is_space c = false
  end.

(** A row of the grid shows the line [l]: it is [l] followed by spaces. *)
Definition shows (l row : list char) : Prop :=
  exists pad, row = l ++ pad /\ Forall (eq SP) pad.

(** The grid shows the lines [L], one row each; a fresh or cleared grid has
    no row yet and shows the one empty line. *)
Definition rows_show (L : list str) (st : state) : Prop :=
  Forall2 shows L (screen st) \/ (L = [[]] /\ screen st = []).

(** The grid shows the lines [done] and, below them, the line [cur], with
    the cursor on that last line at column [c], inside it or right after it. *)
Definition on_line (done : list str) (cur : str) (c : nat) (st : state) : Prop :=
  cursor_row st = Z.of_nat (length done) /\
  cursor_col st = Z.of_nat c /\
  (c <= length cur)%nat /\
  rect st /\
  rows_show (done ++ [cur]) st.

(** The line [l] with [ch] put at column [c]: over the character there, or
    after the line when [c] is its length. *)
Definition put (c : nat) (ch : char) (l : str) : str :=
  firstn c l ++ ch :: skipn (S c) l.

(** The texts of the grammar of [ansi_pattern]: the marker, [[], an
    optional [?], digits and [;], one letter; or the marker, [(] and one of
    A, B, 0. *)
Definition token (m : str) : Prop :=
  (exists params t,
      forallb is_param params = true /\ is_letter t = true /\
      (m = ESC :: 91%N :: params ++ [t] \/ m = ESC :: 91%N :: 63%N :: params ++ [t]))
  \/ (exists c, is_charset c = true /\ m = [ESC; 40%N; c]).

(** [ansi_pattern] without its third alternative. *)
Definition re_match_ansi_without_third (s : str) : option str :=
  let alt1 := match s with
              | 27%N :: 91%N :: t =>
                  option_map (fun m => ESC :: 91%N :: m) (match_run is_param is_letter t)
              | _ => None
              end in
  let alt2 := match s with
              | 27%N :: 91%N :: 63%N :: t =>
                  option_map (fun m => ESC :: 91%N :: 63%N :: m) (match_run is_param is_letter t)
              | _ => None
              end in
  let alt4 := match s with
              | 27%N :: 40%N :: c :: _ =>
                  if is_charset c then Some [ESC; 40%N; c] else None
              | _ => None
              end in
  match alt1 with
  | Some m => Some m
  | None =>
      match alt2 with
      | Some m => Some m
      | None => alt4
      end
  end.

(** The columns [clear_line] blanks in the row of the cursor. *)
Definition erased (mode col c : Z) : bool :=
  if mode =? 0 then col <=? c
  else if mode =? 1 then c <=? col
  else mode =? 2.

(** A grid of two rows that hold whitespace only: a space and a
    no-break space, and nothing. *)
Definition example_blank : state :=
  {| screen := [[SP; 160%N]; []]; cursor_row := 0; cursor_col := 2;
     max_cols := 2; max_rows := 100 |}.

(** * Properties *)

(** ** The primitives *)

Lemma bind_ok {A B : Type} (m : result A) (k : A -> result B) (b : B) :
  bind m k = OK b -> exists a, m = OK a /\ k a = OK b.
Proof.
  destruct m as [a|e]; simpl; intros H; [exists a; auto | discriminate].
Qed.

Lemma bind_ext {A B : Type} (m : result A) (k1 k2 : A -> result B) :
  (forall a, k1 a = k2 a) -> bind m k1 = bind m k2.
Proof.
  intros H; destruct m; simpl; auto.
Qed.

Lemma set_nth_length {A : Type} (n : nat) (x : A) (l : list A) :
  length (set_nth n x l) = length l.
Proof.
  revert n; induction l as [|h t IH]; intros [|n]; simpl; auto.
Qed.

Lemma set_nth_Forall {A : Type} (P : A -> Prop) (n : nat) (x : A) (l : list A) :
  Forall P l -> P x -> Forall P (set_nth n x l).
Proof.
  intros Hl Hx; revert n; induction Hl as [|h t Hh Ht IH]; intros [|n]; simpl;
    constructor; auto.
Qed.

Lemma nth_error_set_nth_same {A : Type} (n : nat) (x : A) (l : list A) :
  (n < length l)%nat -> nth_error (set_nth n x l) n = Some x.
Proof.
  revert n; induction l as [|h t IH]; intros [|n]; simpl; intros H;
    try lia; auto.
  apply IH; lia.
Qed.

Lemma nth_error_set_nth_other {A : Type} (n m : nat) (x : A) (l : list A) :
  n <> m -> nth_error (set_nth n x l) m = nth_error l m.
Proof.
  revert n m; induction l as [|h t IH]; intros [|n] [|m]; simpl; intros H;
    auto; try congruence.
Qed.

Lemma py_index_ok (len : nat) (i : Z) (n : nat) :
  py_index len i = OK n -> (n < len)%nat.
Proof.
  unfold py_index.
  destruct ((0 <=? i) && (i <? Z.of_nat len)) eqn:E1.
  - intros H; injection H as <-. apply andb_prop in E1 as [E1 E2]. lia.
  - destruct ((i <? 0) && (- Z.of_nat len <=? i)) eqn:E2; [|discriminate].
    intros H; injection H as <-. apply andb_prop in E2 as [E2 E3]. lia.
Qed.

Lemma py_index_nonneg (len : nat) (i : Z) :
  0 <= i < Z.of_nat len -> py_index len i = OK (Z.to_nat i).
Proof.
  intros H; unfold py_index.
  replace ((0 <=? i) && (i <? Z.of_nat len)) with true; auto.
  symmetry; apply andb_true_intro; split; lia.
Qed.

Lemma py_getitem_nonneg {A : Type} (l : list A) (i : Z) :
  0 <= i < Z.of_nat (length l) ->
  exists x, py_getitem l i = OK x /\ nth_error l (Z.to_nat i) = Some x.
Proof.
  intros H; unfold py_getitem; rewrite py_index_nonneg by exact H; simpl.
  destruct (nth_error l (Z.to_nat i)) as [x|] eqn:E.
  - exists x; auto.
  - apply nth_error_None in E; lia.
Qed.

Lemma py_getitem_In {A : Type} (l : list A) (i : Z) (x : A) :
  py_getitem l i = OK x -> In x l.
Proof.
  unfold py_getitem; intros H.
  apply bind_ok in H as (n & _ & H).
  destruct (nth_error l n) as [y|] eqn:E; [|discriminate].
  injection H as <-. eapply nth_error_In; eauto.
Qed.

Lemma py_setitem_length {A : Type} (l l' : list A) (i : Z) (x : A) :
  py_setitem l i x = OK l' -> length l' = length l.
Proof.
  unfold py_setitem; intros H.
  apply bind_ok in H as (n & _ & H). injection H as <-. apply set_nth_length.
Qed.

Lemma py_setitem_Forall {A : Type} (P : A -> Prop) (l l' : list A) (i : Z) (x : A) :
  py_setitem l i x = OK l' -> Forall P l -> P x -> Forall P l'.
Proof.
  unfold py_setitem; intros H Hl Hx.
  apply bind_ok in H as (n & _ & H). injection H as <-.
  apply set_nth_Forall; auto.
Qed.

Lemma py_setitem_nonneg {A : Type} (l : list A) (i : Z) (x : A) :
  0 <= i < Z.of_nat (length l) ->
  py_setitem l i x = OK (set_nth (Z.to_nat i) x l).
Proof.
  intros H; unfold py_setitem; rewrite py_index_nonneg by exact H; reflexivity.
Qed.

Lemma blank_cells_length (idxs : list Z) (row row' : list char) :
  blank_cells idxs row = OK row' -> length row' = length row.
Proof.
  revert row; induction idxs as [|i idxs IH]; simpl; intros row H.
  - injection H as <-; reflexivity.
  - apply bind_ok in H as (r1 & H1 & H2).
    apply IH in H2. apply py_setitem_length in H1. congruence.
Qed.

Lemma blank_cells_Forall (P : char -> Prop) (idxs : list Z) (row row' : list char) :
  blank_cells idxs row = OK row' -> P SP -> Forall P row -> Forall P row'.
Proof.
  revert row; induction idxs as [|i idxs IH]; simpl; intros row H HP Hrow.
  - injection H as <-; exact Hrow.
  - apply bind_ok in H as (r1 & H1 & H2).
    eapply IH; eauto. eapply py_setitem_Forall; eauto.
Qed.

Lemma blank_cells_total (idxs : list Z) (row : list char) :
  Forall (fun i => 0 <= i < Z.of_nat (length row)) idxs ->
  exists row', blank_cells idxs row = OK row'.
Proof.
  revert row; induction idxs as [|i idxs IH]; simpl; intros row H.
  - eexists; reflexivity.
  - inversion H as [|? ? Hi Hrest]; subst.
    rewrite py_setitem_nonneg by exact Hi; simpl.
    apply IH. rewrite set_nth_length. exact Hrest.
Qed.

Lemma py_range_bounds (a b : Z) :
  Forall (fun i => a <= i < b) (py_range a b).
Proof.
  unfold py_range. apply Forall_forall. intros i Hi.
  apply in_map_iff in Hi as (k & <- & Hk). apply in_seq in Hk. lia.
Qed.

Lemma py_repeat_length {A : Type} (x : A) (n : Z) :
  Z.of_nat (length (py_repeat x n)) = Z.max 0 n.
Proof.
  unfold py_repeat; rewrite repeat_length; lia.
Qed.

Lemma py_repeat_Forall {A : Type} (P : A -> Prop) (x : A) (n : Z) :
  P x -> Forall P (py_repeat x n).
Proof.
  intros H; unfold py_repeat. apply Forall_forall. intros y Hy.
  apply repeat_spec in Hy; subst; exact H.
Qed.

Lemma append_rows_spec (n : nat) (row width : Z) (scr : list (list char)) :
  n = Z.to_nat (row + 1 - Z.of_nat (length scr)) ->
  append_rows n row width scr = scr ++ repeat (py_repeat SP width) n.
Proof.
  revert scr; induction n as [|n IH]; simpl; intros scr Hn.
  - rewrite app_nil_r; reflexivity.
  - destruct (Z.of_nat (length scr) <=? row) eqn:E; [|lia].
    rewrite IH.
    + rewrite <- app_assoc; reflexivity.
    + rewrite length_app; simpl. lia.
Qed.

(** ** Growth of the grid *)

Lemma ensure_screen_size_eq (row col : Z) (st : state) :
  ensure_screen_size row col st =
  if max_cols st <=? col then
    with_max_cols (col + 50)
      (with_screen
         (map (fun screen_row =>
                 screen_row ++ py_repeat SP (col + 50 - Z.of_nat (length screen_row)))
              (grown row col st)) st)
  else with_screen (grown row col st) st.
Proof.
  unfold ensure_screen_size, grown. rewrite append_rows_spec by reflexivity.
  reflexivity.
Qed.

Lemma ensure_screen_size_cursor (row col : Z) (st : state) :
  cursor_row (ensure_screen_size row col st) = cursor_row st /\
  cursor_col (ensure_screen_size row col st) = cursor_col st.
Proof.
  rewrite ensure_screen_size_eq.
  destruct (max_cols st <=? col); simpl; auto.
Qed.

Lemma ensure_screen_size_max_cols (row col : Z) (st : state) :
  max_cols st <= max_cols (ensure_screen_size row col st) /\
  col < max_cols (ensure_screen_size row col st).
Proof.
  rewrite ensure_screen_size_eq.
  destruct (max_cols st <=? col) eqn:E; simpl; lia.
Qed.

Lemma ensure_screen_size_rows (row col : Z) (st : state) :
  (length (screen st) <= length (screen (ensure_screen_size row col st)))%nat /\
  row < Z.of_nat (length (screen (ensure_screen_size row col st))).
Proof.
  rewrite ensure_screen_size_eq.
  destruct (max_cols st <=? col) eqn:E; simpl; unfold grown;
    rewrite ?length_map, length_app, repeat_length; lia.
Qed.

Lemma grown_rect (row col : Z) (st : state) :
  rect st ->
  Forall (fun r => Z.of_nat (length r) = Z.max 0 (max_cols st)) (grown row col st).
Proof.
  intros H. unfold grown. apply Forall_app; split; [exact H|].
  apply Forall_forall. intros r Hr. apply repeat_spec in Hr; subst.
  apply py_repeat_length.
Qed.

Lemma ensure_screen_size_rect (row col : Z) (st : state) :
  rect st -> rect (ensure_screen_size row col st).
Proof.
  intros H. pose proof (grown_rect row col st H) as G.
  rewrite ensure_screen_size_eq.
  destruct (max_cols st <=? col) eqn:E; unfold rect; simpl; [|exact G].
  apply Forall_forall. intros r Hr.
  apply in_map_iff in Hr as (r0 & <- & Hr0).
  rewrite Forall_forall in G. specialize (G r0 Hr0).
  rewrite length_app, Nat2Z.inj_add, py_repeat_length. lia.
Qed.

Lemma ensure_screen_size_printable (row col : Z) (st : state) :
  printable st -> printable (ensure_screen_size row col st).
Proof.
  intros H.
  assert (Hsp : printable_char SP) by (unfold printable_char, ord, SP; lia).
  assert (G : Forall (Forall printable_char) (grown row col st)).
  { unfold grown. apply Forall_app; split; [exact H|].
    apply Forall_forall. intros r Hr. apply repeat_spec in Hr; subst.
    apply py_repeat_Forall; exact Hsp. }
  rewrite ensure_screen_size_eq.
  destruct (max_cols st <=? col); unfold printable; simpl; [|exact G].
  apply Forall_forall. intros r Hr.
  apply in_map_iff in Hr as (r0 & <- & Hr0).
  rewrite Forall_forall in G.
  apply Forall_app; split; [apply G; exact Hr0 | apply py_repeat_Forall; exact Hsp].
Qed.

Lemma nth_error_repeat_Some {A : Type} (x y : A) (n k : nat) :
  nth_error (repeat x n) k = Some y -> y = x.
Proof.
  intros H. apply nth_error_In in H. apply repeat_spec in H. exact H.
Qed.

(** A cell of the grown grid is a cell of the old grid or a space. *)
Lemma grown_cell (row col : Z) (st : state) (r c : nat) (ch : char) :
  match nth_error (grown row col st) r with
  | Some l => nth_error l c
  | None => None
  end = Some ch ->
  cell st r c = Some ch \/ (cell st r c = None /\ ch = SP).
Proof.
  unfold grown, cell.
  destruct (Nat.lt_ge_cases r (length (screen st))) as [Hlt|Hge].
  - rewrite nth_error_app1 by exact Hlt. auto.
  - rewrite nth_error_app2 by exact Hge.
    assert (E : nth_error (screen st) r = None) by (apply nth_error_None; exact Hge).
    rewrite E.
    destruct (nth_error (repeat _ _) _) as [l|] eqn:El; [|discriminate].
    apply nth_error_repeat_Some in El; subst l.
    intros H. right; split; auto.
    unfold py_repeat in H. eapply nth_error_repeat_Some; eauto.
Qed.

Lemma ensure_screen_size_keeps (row col : Z) (st : state) (r c : nat) (ch : char) :
  cell st r c = Some ch -> cell (ensure_screen_size row col st) r c = Some ch.
Proof.
  unfold cell at 1. destruct (nth_error (screen st) r) as [l|] eqn:El; [|discriminate].
  intros Hc.
  assert (G : nth_error (grown row col st) r = Some l).
  { unfold grown. rewrite nth_error_app1; auto.
    apply nth_error_Some; congruence. }
  rewrite ensure_screen_size_eq.
  destruct (max_cols st <=? col); unfold cell; simpl.
  - rewrite nth_error_map, G; simpl.
    rewrite nth_error_app1; auto. apply nth_error_Some; congruence.
  - rewrite G; exact Hc.
Qed.

Lemma ensure_screen_size_adds_spaces (row col : Z) (st : state) (r c : nat) (ch : char) :
  cell (ensure_screen_size row col st) r c = Some ch ->
  cell st r c = Some ch \/ (cell st r c = None /\ ch = SP).
Proof.
  rewrite ensure_screen_size_eq.
  destruct (max_cols st <=? col); unfold cell at 1; simpl.
  - rewrite nth_error_map.
    destruct (nth_error (grown row col st) r) as [l|] eqn:El; simpl; [|discriminate].
    destruct (Nat.lt_ge_cases c (length l)) as [Hlt|Hge].
    + rewrite nth_error_app1 by exact Hlt. intros H.
      apply (grown_cell row col). rewrite El; exact H.
    + rewrite nth_error_app2 by exact Hge. intros H.
      apply nth_error_repeat_Some in H; subst ch.
      assert (N : nth_error l c = None) by (apply nth_error_None; exact Hge).
      destruct (cell st r c) as [x|] eqn:Ex; auto.
      exfalso.
      unfold cell in Ex.
      destruct (nth_error (screen st) r) as [l0|] eqn:El0; [|discriminate].
      unfold grown in El. rewrite nth_error_app1 in El
        by (apply nth_error_Some; congruence).
      congruence.
  - apply grown_cell.
Qed.

(** ** The invariants, method by method *)

Lemma printable_SP : printable_char SP.
Proof. unfold printable_char, ord, SP; lia. Qed.

Lemma row_updated_cursor (x : char) (st st' : state) :
  row_updated x st st' ->
  cursor_row st' = cursor_row st /\ cursor_col st' = cursor_col st /\
  max_cols st' = max_cols st /\ length (screen st') = length (screen st).
Proof.
  intros (n & row & row' & _ & _ & _ & ->); simpl.
  rewrite set_nth_length; auto.
Qed.

Lemma row_updated_rect (x : char) (st st' : state) :
  row_updated x st st' -> rect st -> rect st'.
Proof.
  intros (n & row & row' & Hin & Hlen & _ & ->) H; unfold rect in *; simpl.
  apply set_nth_Forall; auto.
  rewrite Forall_forall in H. rewrite Hlen. apply H; exact Hin.
Qed.

Lemma row_updated_printable (x : char) (st st' : state) :
  row_updated x st st' -> printable_char x -> printable st -> printable st'.
Proof.
  intros (n & row & row' & Hin & _ & HP & ->) Hx H; unfold printable in *; simpl.
  apply set_nth_Forall; auto.
  apply HP; auto. rewrite Forall_forall in H. apply H; exact Hin.
Qed.

Lemma write_cell_updated (ch : char) (st st' : state) :
  write_cell ch st = OK st' -> row_updated ch st st'.
Proof.
  unfold write_cell; intros H.
  apply bind_ok in H as (n & _ & H).
  apply bind_ok in H as (row & Hrow & H).
  apply bind_ok in H as (row' & Hrow' & H).
  injection H as <-.
  exists n, row, row'. repeat split.
  - eapply py_getitem_In; eauto.
  - eapply py_setitem_length; eauto.
  - intros P Hx Hr. eapply py_setitem_Forall; eauto.
Qed.

Lemma clear_line_updated (mode : Z) (st st' : state) :
  clear_line mode st = OK st' -> st' = st \/ row_updated SP st st'.
Proof.
  unfold clear_line; intros H.
  destruct (cursor_row st <? Z.of_nat (length (screen st)));
    [|injection H as <-; auto].
  apply bind_ok in H as (n & _ & H).
  apply bind_ok in H as (row & Hrow & H).
  assert (K : forall idxs,
             (row' <- blank_cells idxs row ;;
              OK (with_screen (set_nth n row' (screen st)) st)) = OK st' ->
             row_updated SP st st').
  { intros idxs Hb. apply bind_ok in Hb as (row' & Hrow' & Hb).
    injection Hb as <-. exists n, row, row'. repeat split.
    - eapply py_getitem_In; eauto.
    - eapply blank_cells_length; eauto.
    - intros P Hx Hr. eapply blank_cells_Forall; eauto. }
  destruct (mode =? 0); [right; eapply K; eauto|].
  destruct (mode =? 1); [right; eapply K; eauto|].
  destruct (mode =? 2); [right; eapply K; eauto|].
  injection H as <-; auto.
Qed.

Lemma clear_line_total (mode : Z) (st : state) :
  cursor_ok st -> exists st', clear_line mode st = OK st'.
Proof.
  intros [Hr Hc]. unfold clear_line.
  destruct (cursor_row st <? Z.of_nat (length (screen st))) eqn:E;
    [|eexists; reflexivity].
  apply Z.ltb_lt in E.
  rewrite py_index_nonneg by lia; simpl.
  destruct (py_getitem_nonneg (screen st) (cursor_row st)) as (row & -> & _);
    [lia|]; simpl.
  assert (K : forall a b, 0 <= a -> b <= Z.of_nat (length row) ->
             exists st',
               (row' <- blank_cells (py_range a b) row ;;
                OK (with_screen (set_nth (Z.to_nat (cursor_row st)) row' (screen st)) st))
               = OK st').
  { intros a b Ha Hb.
    destruct (blank_cells_total (py_range a b) row) as (row' & ->).
    - eapply Forall_impl; [|apply py_range_bounds]. simpl; intros; lia.
    - simpl; eexists; reflexivity. }
  destruct (mode =? 0); [apply K; lia|].
  destruct (mode =? 1); [apply K; lia|].
  destruct (mode =? 2); [apply K; lia|].
  eexists; reflexivity.
Qed.

Lemma clear_line_wf (mode : Z) (st st' : state) :
  clear_line mode st = OK st' -> wf st -> wf st'.
Proof.
  intros H [[Hr Hc] Hrect].
  apply clear_line_updated in H as [->|H]; [repeat split; auto|].
  pose proof (row_updated_cursor _ _ _ H) as (E1 & E2 & _).
  repeat split; try congruence. eapply row_updated_rect; eauto.
Qed.

Lemma clear_line_printable (mode : Z) (st st' : state) :
  clear_line mode st = OK st' -> printable st -> printable st'.
Proof.
  intros H Hp.
  apply clear_line_updated in H as [->|H]; auto.
  eapply row_updated_printable; eauto. apply printable_SP.
Qed.

Lemma write_cell_total (ch : char) (st : state) :
  rect st ->
  0 <= cursor_row st < Z.of_nat (length (screen st)) ->
  0 <= cursor_col st < max_cols st ->
  exists row,
    nth_error (screen st) (Z.to_nat (cursor_row st)) = Some row /\
    write_cell ch st =
    OK (with_screen
          (set_nth (Z.to_nat (cursor_row st))
                   (set_nth (Z.to_nat (cursor_col st)) ch row) (screen st)) st) /\
    (Z.to_nat (cursor_col st) < length row)%nat.
Proof.
  intros Hrect Hr Hc. unfold write_cell.
  rewrite py_index_nonneg by lia; simpl.
  destruct (py_getitem_nonneg (screen st) (cursor_row st)) as (row & -> & Hn);
    [lia|]; simpl.
  assert (L : Z.of_nat (length row) = Z.max 0 (max_cols st)).
  { unfold rect in Hrect. rewrite Forall_forall in Hrect. apply Hrect.
    eapply nth_error_In; eauto. }
  rewrite py_setitem_nonneg by lia; simpl.
  exists row; repeat split; auto. lia.
Qed.

Lemma cell_write (st : state) (r c : nat) (ch : char) (row : list char) :
  nth_error (screen st) r = Some row -> (c < length row)%nat ->
  cell (with_screen (set_nth r (set_nth c ch row) (screen st)) st) r c = Some ch.
Proof.
  intros Hr Hc. unfold cell; simpl.
  rewrite nth_error_set_nth_same by (apply nth_error_Some; congruence).
  apply nth_error_set_nth_same; exact Hc.
Qed.

(** A printable character is written at the cursor, which then moves one
    column to the right. *)
Lemma insert_char_printable_char (ch : char) (st : state) :
  wf st -> 32 <= ord ch ->
  exists st',
    insert_char ch st = OK st' /\
    cell st' (Z.to_nat (cursor_row st)) (Z.to_nat (cursor_col st)) = Some ch /\
    cursor_row st' = cursor_row st /\ cursor_col st' = cursor_col st + 1 /\
    wf st'.
Proof.
  intros [[Hr Hc] Hrect] Hch. unfold insert_char.
  assert (E1 : N.eqb ch LF = false) by (apply N.eqb_neq; unfold ord, LF in *; lia).
  assert (E2 : N.eqb ch CR = false) by (apply N.eqb_neq; unfold ord, CR in *; lia).
  assert (E3 : N.eqb ch TAB = false) by (apply N.eqb_neq; unfold ord, TAB in *; lia).
  rewrite E1, E2, E3.
  replace (32 <=? ord ch) with true by (symmetry; apply Z.leb_le; exact Hch).
  set (st1 := ensure_screen_size (cursor_row st) (cursor_col st) st).
  pose proof (ensure_screen_size_cursor (cursor_row st) (cursor_col st) st) as [C1 C2].
  pose proof (ensure_screen_size_max_cols (cursor_row st) (cursor_col st) st) as [_ M].
  pose proof (ensure_screen_size_rows (cursor_row st) (cursor_col st) st) as [_ R].
  pose proof (ensure_screen_size_rect (cursor_row st) (cursor_col st) st Hrect) as Hrect1.
  fold st1 in C1, C2, M, R, Hrect1.
  destruct (write_cell_total ch st1 Hrect1) as (row & Hrow & -> & Hlen);
    [lia | lia |]; simpl.
  eexists; split; [reflexivity|].
  rewrite C1, C2 in *.
  split; [|split; [|split]]; simpl; auto.
  - change (cell (with_screen
              (set_nth (Z.to_nat (cursor_row st))
                 (set_nth (Z.to_nat (cursor_col st)) ch row) (screen st1)) st1)
              (Z.to_nat (cursor_row st)) (Z.to_nat (cursor_col st)) = Some ch).
    apply cell_write; auto.
  - repeat split; simpl; try lia.
    unfold rect in *; simpl. apply set_nth_Forall; auto.
    rewrite set_nth_length. rewrite Forall_forall in Hrect1. apply Hrect1.
    eapply nth_error_In; eauto.
Qed.

Lemma insert_char_wf (ch : char) (st : state) :
  wf st -> exists st', insert_char ch st = OK st' /\ wf st'.
Proof.
  intros Hwf.
  destruct (Z.le_gt_cases 32 (ord ch)) as [Hch|Hch].
  - destruct (insert_char_printable_char ch st Hwf Hch) as (st' & H & _ & _ & _ & W).
    exists st'; auto.
  - destruct Hwf as [[Hr Hc] Hrect]. unfold insert_char.
    destruct (N.eqb ch LF).
    { eexists; split; [reflexivity|]. split.
      - split; [rewrite (proj1 (ensure_screen_size_cursor _ _ _))
               | rewrite (proj2 (ensure_screen_size_cursor _ _ _))]; simpl; lia.
      - apply ensure_screen_size_rect; exact Hrect. }
    destruct (N.eqb ch CR).
    { eexists; split; [reflexivity|]. repeat split; simpl; auto; lia. }
    destruct (N.eqb ch TAB).
    { eexists; split; [reflexivity|]. split.
      - split; [rewrite (proj1 (ensure_screen_size_cursor _ _ _))
               | rewrite (proj2 (ensure_screen_size_cursor _ _ _))]; simpl; auto.
        pose proof (Z.div_pos (cursor_col st) 8). lia.
      - apply ensure_screen_size_rect; exact Hrect. }
    replace (32 <=? ord ch) with false by (symmetry; apply Z.leb_gt; exact Hch).
    eexists; split; [reflexivity|]. repeat split; auto.
Qed.

Lemma insert_char_printable (ch : char) (st st' : state) :
  insert_char ch st = OK st' -> printable st -> printable st'.
Proof.
  unfold insert_char; intros H Hp.
  destruct (N.eqb ch LF).
  { injection H as <-. apply ensure_screen_size_printable; exact Hp. }
  destruct (N.eqb ch CR).
  { injection H as <-. exact Hp. }
  destruct (N.eqb ch TAB).
  { injection H as <-. apply ensure_screen_size_printable; exact Hp. }
  destruct (32 <=? ord ch) eqn:E; [|injection H as <-; exact Hp].
  apply bind_ok in H as (st2 & H2 & H). injection H as <-.
  apply write_cell_updated in H2.
  eapply row_updated_printable in H2; eauto.
  - apply Z.leb_le in E; exact E.
  - apply ensure_screen_size_printable; exact Hp.
Qed.

Lemma insert_text_wf (text : str) (st : state) :
  wf st -> exists st', insert_text text st = OK st' /\ wf st'.
Proof.
  revert st; induction text as [|ch text IH]; simpl; intros st Hwf.
  - exists st; auto.
  - destruct (insert_char_wf ch st Hwf) as (st1 & -> & W1); simpl. apply IH; exact W1.
Qed.

Lemma insert_text_printable (text : str) (st st' : state) :
  insert_text text st = OK st' -> printable st -> printable st'.
Proof.
  revert st; induction text as [|ch text IH]; simpl; intros st H Hp.
  - injection H as <-; exact Hp.
  - apply bind_ok in H as (st1 & H1 & H). eapply IH; eauto.
    eapply insert_char_printable; eauto.
Qed.

Lemma ensure_screen_size_wf (row col : Z) (st : state) :
  wf st -> wf (ensure_screen_size row col st).
Proof.
  intros [[Hr Hc] Hrect]. split.
  - unfold cursor_ok.
    destruct (ensure_screen_size_cursor row col st) as [-> ->]. split; auto.
  - apply ensure_screen_size_rect; exact Hrect.
Qed.

Lemma set_cursor_wf (row col : Z) (st : state) :
  rect st -> wf (set_cursor row col st).
Proof.
  intros Hrect. unfold set_cursor. apply ensure_screen_size_wf.
  repeat split; simpl; try lia. exact Hrect.
Qed.

Lemma move_cursor_up_wf (lines : Z) (st : state) :
  wf st -> wf (move_cursor_up lines st).
Proof.
  intros [[Hr Hc] Hrect]. repeat split; simpl; auto; lia.
Qed.

Lemma move_cursor_backward_wf (cols : Z) (st : state) :
  wf st -> wf (move_cursor_backward cols st).
Proof.
  intros [[Hr Hc] Hrect]. repeat split; simpl; auto; lia.
Qed.

Lemma move_cursor_down_wf (lines : Z) (st : state) :
  0 <= lines -> wf st -> wf (move_cursor_down lines st).
Proof.
  intros Hl [[Hr Hc] Hrect]. unfold move_cursor_down.
  apply ensure_screen_size_wf. repeat split; simpl; auto; lia.
Qed.

Lemma move_cursor_forward_wf (cols : Z) (st : state) :
  0 <= cols -> wf st -> wf (move_cursor_forward cols st).
Proof.
  intros Hl [[Hr Hc] Hrect]. unfold move_cursor_forward.
  apply ensure_screen_size_wf. repeat split; simpl; auto; lia.
Qed.

Lemma clear_screen_wf (mode : Z) (st : state) :
  wf st -> wf (clear_screen mode st).
Proof.
  intros Hwf. unfold clear_screen. destruct (mode =? 2); auto.
  repeat split; simpl; try lia. constructor.
Qed.

Lemma clear_screen_printable (mode : Z) (st : state) :
  printable st -> printable (clear_screen mode st).
Proof.
  intros H. unfold clear_screen. destruct (mode =? 2); auto. constructor.
Qed.

(** *** Integer literals *)

Lemma is_digit_ord (c : char) : is_digit c = true -> 48 <= ord c <= 57.
Proof.
  unfold is_digit, ord; intros H. apply andb_prop in H as [H1 H2].
  apply N.leb_le in H1, H2. lia.
Qed.

Lemma digits_value_nonneg (s : str) (acc n : Z) :
  0 <= acc -> digits_value acc s = Some n -> 0 <= n.
Proof.
  revert acc; induction s as [|c s IH]; cbn [digits_value]; intros acc Ha H.
  - injection H as <-; exact Ha.
  - destruct (is_digit c) eqn:E; [|discriminate].
    apply is_digit_ord in E. eapply IH; [|exact H]. lia.
Qed.

Lemma digits_value_total (s : str) (acc : Z) :
  forallb is_digit s = true -> exists n, digits_value acc s = Some n.
Proof.
  revert acc; induction s as [|c s IH]; simpl; intros acc H.
  - eexists; reflexivity.
  - apply andb_prop in H as [-> H]. apply IH; exact H.
Qed.

Lemma digits_value_digits (s : str) (acc n : Z) :
  digits_value acc s = Some n -> forallb is_digit s = true.
Proof.
  revert acc; induction s as [|c s IH]; simpl; intros acc H; auto.
  destruct (is_digit c); [|discriminate]. simpl. eapply IH; eauto.
Qed.

Lemma py_int_nonneg (s : str) (n : Z) : py_int s = OK n -> 0 <= n.
Proof.
  unfold py_int. destruct s as [|c s]; [discriminate|].
  destruct (digits_value 0 (c :: s)) as [m|] eqn:E; [|discriminate].
  intros H; injection H as <-. eapply digits_value_nonneg; [|exact E]. lia.
Qed.

Lemma py_int_error (s : str) (e : exn) : py_int s = Error e -> e = ValueError.
Proof.
  unfold py_int. destruct s as [|c s]; [congruence|].
  destruct (digits_value 0 (c :: s)); congruence.
Qed.

(** [int] succeeds exactly on the non-empty runs of digits. *)
Lemma py_int_ok_iff (s : str) :
  (exists n, py_int s = OK n) <-> (s <> [] /\ forallb is_digit s = true).
Proof.
  unfold py_int. split.
  - intros (n & H). destruct s as [|c s]; [discriminate|].
    split; [discriminate|].
    destruct (digits_value 0 (c :: s)) as [m|] eqn:E; [|discriminate].
    eapply digits_value_digits; eauto.
  - intros (Hne & Hd). destruct s as [|c s]; [congruence|].
    destruct (digits_value_total (c :: s) 0 Hd) as (n & ->). eauto.
Qed.

Lemma int_or_nonneg (p : str) (d n : Z) : 0 <= d -> int_or p d = OK n -> 0 <= n.
Proof.
  unfold int_or. destruct p as [|c p].
  - intros Hd H; injection H as <-; exact Hd.
  - intros _; apply py_int_nonneg.
Qed.

Lemma int_or_error (p : str) (d : Z) (e : exn) : int_or p d = Error e -> e = ValueError.
Proof.
  unfold int_or. destruct p as [|c p]; [discriminate|]. apply py_int_error.
Qed.

(** *** The interpreter of sequences *)

(** The shape of every arm of [process_escape_sequence]: read a number,
    then act. *)
Lemma bind_inv {A B : Type} (m : result A) (k : A -> result B) (r : result B) :
  bind m k = r ->
  (exists a, m = OK a /\ k a = r) \/ (exists e, m = Error e /\ r = Error e).
Proof.
  destruct m as [a|e]; simpl; intros <-; [left|right]; eauto.
Qed.

(** What a call leaves behind, for every property [Q] of states that each
    method preserves and every failure [e]. *)
Lemma process_escape_sequence_cases (sequence : str) (st : state)
      (Q : result state -> Prop) :
  Q (OK st) ->
  (forall e, e = ValueError -> Q (Error e)) ->
  (forall r c, 0 <= r -> 0 <= c -> Q (OK (set_cursor (r - 1) (c - 1) st))) ->
  (forall n, 0 <= n -> Q (OK (move_cursor_up n st))) ->
  (forall n, 0 <= n -> Q (OK (move_cursor_down n st))) ->
  (forall n, 0 <= n -> Q (OK (move_cursor_forward n st))) ->
  (forall n, 0 <= n -> Q (OK (move_cursor_backward n st))) ->
  (forall n, 0 <= n ->
     Q (OK (ensure_screen_size (cursor_row st) (Z.max 0 (n - 1))
              (with_cursor_col (Z.max 0 (n - 1)) st)))) ->
  (forall n, Q (clear_line n st)) ->
  (forall n, Q (OK (clear_screen n st))) ->
  Q (process_escape_sequence sequence st).
Proof.
  intros Hid Herr Hset Hup Hdown Hfwd Hbwd Hcol Hline Hscr.
  unfold process_escape_sequence.
  destruct sequence as [|c0 csi_content]; [exact Hid|].
  destruct (N.eq_dec c0 91) as [->|Hne].
  2:{ destruct c0 as [|p]; [exact Hid|].
      repeat (destruct p as [p|p|]; try exact Hid). congruence. }
  destruct (endswith csi_content (chr "H") || endswith csi_content (chr "f")).
  { destruct (py_int _) as [r|e] eqn:Er; simpl;
      [|apply Herr; eapply py_int_error; eauto].
    destruct (py_int _) as [c|e] eqn:Ec in |- *; simpl;
      [|apply Herr; eapply py_int_error; eauto].
    apply Hset; eapply py_int_nonneg; eauto. }
  destruct (endswith csi_content (chr "A")).
  { destruct (int_or _ _) as [n|e] eqn:E; simpl;
      [apply Hup; eapply int_or_nonneg; eauto; lia
      |apply Herr; eapply int_or_error; eauto]. }
  destruct (endswith csi_content (chr "B")).
  { destruct (int_or _ _) as [n|e] eqn:E; simpl;
      [apply Hdown; eapply int_or_nonneg; eauto; lia
      |apply Herr; eapply int_or_error; eauto]. }
  destruct (endswith csi_content (chr "C")).
  { destruct (int_or _ _) as [n|e] eqn:E; simpl;
      [apply Hfwd; eapply int_or_nonneg; eauto; lia
      |apply Herr; eapply int_or_error; eauto]. }
  destruct (endswith csi_content (chr "D")).
  { destruct (int_or _ _) as [n|e] eqn:E; simpl;
      [apply Hbwd; eapply int_or_nonneg; eauto; lia
      |apply Herr; eapply int_or_error; eauto]. }
  destruct (endswith csi_content (chr "G")).
  { destruct (int_or _ _) as [n|e] eqn:E; simpl;
      [apply Hcol; eapply int_or_nonneg; eauto; lia
      |apply Herr; eapply int_or_error; eauto]. }
  destruct (endswith csi_content (chr "K")).
  { destruct (int_or _ _) as [n|e] eqn:E; simpl;
      [apply Hline|apply Herr; eapply int_or_error; eauto]. }
  destruct (endswith csi_content (chr "J")).
  { destruct (int_or _ _) as [n|e] eqn:E; simpl;
      [apply Hscr|apply Herr; eapply int_or_error; eauto]. }
  destruct (endswith csi_content (chr "m")); exact Hid.
Qed.

(** From a well-formed state an escape sequence leaves a well-formed state,
    or fails on a malformed number and on nothing else. *)
Lemma process_escape_sequence_wf (sequence : str) (st : state) :
  wf st ->
  match process_escape_sequence sequence st with
  | OK st' => wf st'
  | Error e => e = ValueError
  end.
Proof.
  intros Hwf. apply process_escape_sequence_cases; auto.
  - intros; apply set_cursor_wf; apply Hwf.
  - intros; apply move_cursor_up_wf; auto.
  - intros; apply move_cursor_down_wf; auto.
  - intros; apply move_cursor_forward_wf; auto.
  - intros; apply move_cursor_backward_wf; auto.
  - intros n Hn. apply (ensure_screen_size_wf _ _ (with_cursor_col _ st)).
    destruct Hwf as [[Hr Hc] Hrect]. repeat split; simpl; auto; lia.
  - intros n. destruct (clear_line_total n st (proj1 Hwf)) as (st' & E).
    rewrite E. eapply clear_line_wf; eauto.
  - intros; apply clear_screen_wf; auto.
Qed.

Lemma process_escape_sequence_printable (sequence : str) (st : state) :
  printable st ->
  match process_escape_sequence sequence st with
  | OK st' => printable st'
  | Error _ => True
  end.
Proof.
  intros Hp. apply process_escape_sequence_cases; auto.
  - intros; unfold set_cursor; apply ensure_screen_size_printable; exact Hp.
  - intros; unfold move_cursor_down; apply ensure_screen_size_printable; exact Hp.
  - intros; unfold move_cursor_forward; apply ensure_screen_size_printable; exact Hp.
  - intros; apply (ensure_screen_size_printable _ _ (with_cursor_col _ st)); exact Hp.
  - intros n. destruct (clear_line n st) as [st'|e] eqn:E; auto.
    eapply clear_line_printable; eauto.
  - intros; apply clear_screen_printable; exact Hp.
Qed.

(** ** The scanner *)

Lemma span_spec (p : char -> bool) (s run rest : str) :
  span p s = (run, rest) ->
  s = run ++ rest /\ forallb p run = true /\
  match rest with [] => True | c :: _ => p c = false end.
Proof.
  revert run rest; induction s as [|c s IH]; simpl; intros run rest H.
  - injection H as <- <-; auto.
  - destruct (p c) eqn:E.
    + destruct (span p s) as [run0 rest0]. injection H as <- <-.
      destruct (IH _ _ eq_refl) as (-> & Hr & Hrest).
      simpl; rewrite E, Hr; auto.
    + injection H as <- <-. simpl; rewrite E; auto.
Qed.

Lemma span_run (p : char -> bool) (run : str) (c : char) (rest : str) :
  forallb p run = true -> p c = false ->
  span p (run ++ c :: rest) = (run, c :: rest).
Proof.
  intros Hr Hc; induction run as [|x run IH]; simpl in *.
  - rewrite Hc; reflexivity.
  - apply andb_prop in Hr as [-> Hr]. rewrite IH by exact Hr. reflexivity.
Qed.

Lemma match_run_spec (p q : char -> bool) (s m : str) :
  match_run p q s = Some m ->
  exists run c rest,
    m = run ++ [c] /\ s = run ++ c :: rest /\ forallb p run = true /\ q c = true.
Proof.
  unfold match_run. destruct (span p s) as [run rest] eqn:E.
  apply span_spec in E as (-> & Hr & _).
  destruct rest as [|c rest]; [discriminate|].
  destruct (q c) eqn:Eq; [|discriminate].
  intros H; injection H as <-. exists run, c, rest; auto.
Qed.

Lemma match_run_complete (p q : char -> bool) (run : str) (c : char) (rest : str) :
  forallb p run = true -> p c = false -> q c = true ->
  match_run p q (run ++ c :: rest) = Some (run ++ [c]).
Proof.
  intros Hr Hp Hq. unfold match_run. rewrite span_run by assumption.
  rewrite Hq; reflexivity.
Qed.

(** A match is a prefix of the text that begins with the escape marker and
    has at least two more characters. *)
Lemma re_match_ansi_prefix (s m : str) :
  re_match_ansi s = Some m ->
  exists x sequence rest, m = ESC :: x :: sequence /\ s = m ++ rest.
Proof.
  unfold re_match_ansi.
  destruct s as [|c0 s]; [discriminate|].
  destruct (N.eq_dec c0 27) as [->|N0].
  2:{ destruct c0 as [|q]; [discriminate|].
      repeat (destruct q as [q|q|]; try discriminate). congruence. }
  destruct s as [|c1 s]; [discriminate|].
  destruct (N.eq_dec c1 91) as [->|N1].
  - destruct (match_run is_param is_letter s) as [m1|] eqn:E1; simpl.
    { intros H; injection H as <-.
      apply match_run_spec in E1 as (run & c & rest & -> & -> & _).
      exists 91%N, (run ++ [c]), rest. split; [reflexivity|].
      simpl. rewrite <- app_assoc. reflexivity. }
    destruct s as [|c2 s]; [discriminate|].
    destruct (N.eq_dec c2 63) as [->|N2].
    + destruct (match_run is_param is_letter s) as [m2|] eqn:E2; simpl.
      { intros H; injection H as <-.
        apply match_run_spec in E2 as (run & c & rest & -> & -> & _).
        exists 91%N, (63%N :: run ++ [c]), rest. split; [reflexivity|].
        simpl. rewrite <- app_assoc. reflexivity. }
      destruct (match_run is_digit is_hl s) as [m3|] eqn:E3; simpl; [|discriminate].
      intros H; injection H as <-.
      apply match_run_spec in E3 as (run & c & rest & -> & -> & _).
      exists 91%N, (63%N :: run ++ [c]), rest. split; [reflexivity|].
      simpl. rewrite <- app_assoc. reflexivity.
    + destruct c2 as [|q]; [discriminate|].
      repeat (destruct q as [q|q|]; try discriminate). congruence.
  - assert (E : re_match_ansi (27%N :: c1 :: s) =
                match s with
                | c :: _ => if N.eqb c1 40 && is_charset c then Some [ESC; 40%N; c] else None
                | [] => None
                end).
    { unfold re_match_ansi.
      destruct c1 as [|q]; [destruct s; reflexivity|].
      repeat (destruct q as [q|q|]; try (destruct s; reflexivity)).
      congruence. }
    unfold re_match_ansi in E. rewrite E.
    destruct s as [|c s]; [discriminate|].
    destruct (N.eqb c1 40) eqn:E40; simpl; [|discriminate].
    apply N.eqb_eq in E40; subst c1.
    destruct (is_charset c); [|discriminate].
    intros H; injection H as <-.
    exists 40%N, [c], s. split; reflexivity.
Qed.

Lemma skipn_match (m rest : str) : skipn (length m) (m ++ rest) = rest.
Proof.
  rewrite skipn_app, Nat.sub_diag, skipn_all. reflexivity.
Qed.

(** *** Results of the program are never the fuel artefact *)

Lemma genuine_bind {A B : Type} (m : result A) (k : A -> result B) :
  genuine m -> (forall a, genuine (k a)) -> genuine (bind m k).
Proof.
  unfold genuine. destruct m as [a|e]; simpl; intros H1 H2; [apply H2 | congruence].
Qed.

Lemma genuine_ok {A : Type} (a : A) : genuine (OK a).
Proof. unfold genuine; discriminate. Qed.

Lemma genuine_py_index (len : nat) (i : Z) : genuine (py_index len i).
Proof.
  unfold genuine, py_index.
  destruct ((0 <=? i) && (i <? Z.of_nat len)); [discriminate|].
  destruct ((i <? 0) && (- Z.of_nat len <=? i)); discriminate.
Qed.

Lemma genuine_py_getitem {A : Type} (l : list A) (i : Z) : genuine (py_getitem l i).
Proof.
  unfold py_getitem. apply genuine_bind; [apply genuine_py_index|].
  intros n. destruct (nth_error l n); unfold genuine; discriminate.
Qed.

Lemma genuine_py_setitem {A : Type} (l : list A) (i : Z) (x : A) :
  genuine (py_setitem l i x).
Proof.
  unfold py_setitem. apply genuine_bind; [apply genuine_py_index|].
  intros n. apply genuine_ok.
Qed.

Lemma genuine_blank_cells (idxs : list Z) (row : list char) :
  genuine (blank_cells idxs row).
Proof.
  revert row; induction idxs as [|i idxs IH]; simpl; intros row.
  - apply genuine_ok.
  - apply genuine_bind; [apply genuine_py_setitem | exact IH].
Qed.

Lemma genuine_clear_line (mode : Z) (st : state) : genuine (clear_line mode st).
Proof.
  unfold clear_line.
  destruct (cursor_row st <? Z.of_nat (length (screen st))); [|apply genuine_ok].
  apply genuine_bind; [apply genuine_py_index|]. intros n.
  apply genuine_bind; [apply genuine_py_getitem|]. intros row.
  destruct (mode =? 0);
    [apply genuine_bind; [apply genuine_blank_cells | intros; apply genuine_ok]|].
  destruct (mode =? 1);
    [apply genuine_bind; [apply genuine_blank_cells | intros; apply genuine_ok]|].
  destruct (mode =? 2);
    [apply genuine_bind; [apply genuine_blank_cells | intros; apply genuine_ok]|].
  apply genuine_ok.
Qed.

Lemma genuine_insert_char (ch : char) (st : state) : genuine (insert_char ch st).
Proof.
  unfold insert_char.
  destruct (N.eqb ch LF); [apply genuine_ok|].
  destruct (N.eqb ch CR); [apply genuine_ok|].
  destruct (N.eqb ch TAB); [apply genuine_ok|].
  destruct (32 <=? ord ch); [|apply genuine_ok].
  apply genuine_bind; [|intros; apply genuine_ok].
  unfold write_cell.
  apply genuine_bind; [apply genuine_py_index|]. intros n.
  apply genuine_bind; [apply genuine_py_getitem|]. intros row.
  apply genuine_bind; [apply genuine_py_setitem|]. intros; apply genuine_ok.
Qed.

Lemma genuine_insert_text (text : str) (st : state) : genuine (insert_text text st).
Proof.
  revert st; induction text as [|ch text IH]; simpl; intros st.
  - apply genuine_ok.
  - apply genuine_bind; [apply genuine_insert_char | exact IH].
Qed.

Lemma genuine_process_escape_sequence (sequence : str) (st : state) :
  genuine (process_escape_sequence sequence st).
Proof.
  apply process_escape_sequence_cases; intros; try apply genuine_ok.
  - subst; unfold genuine; discriminate.
  - apply genuine_clear_line.
Qed.

(** With fuel for every character of the input, the loop of
    [process_content] ends with a result of the program. *)
Lemma process_loop_never_out_of_fuel (fuel : nat) (content : str) (st : state) :
  (length content <= fuel)%nat -> genuine (process_loop fuel content st).
Proof.
  revert content st; induction fuel as [|fuel IH]; intros content st Hlen.
  - destruct content; [apply genuine_ok | simpl in Hlen; lia].
  - destruct content as [|c rest]; [apply genuine_ok|].
    cbn [process_loop].
    destruct (if N.eqb c ESC && (1 <? Z.of_nat (length (c :: rest)))
              then re_match_ansi (c :: rest) else None) as [sequence|] eqn:F.
    + apply genuine_bind; [apply genuine_process_escape_sequence|]. intros st'.
      apply IH.
      destruct (N.eqb c ESC && (1 <? Z.of_nat (length (c :: rest))));
        [|discriminate].
      apply re_match_ansi_prefix in F as (x & sq & rest' & -> & E).
      rewrite E, skipn_match.
      apply (f_equal (@length char)) in E. rewrite length_app in E.
      simpl in *. lia.
    + apply genuine_bind.
      * destruct (negb (N.eqb c ESC)); [apply genuine_insert_text | apply genuine_ok].
      * intros st'. apply IH. simpl in Hlen; lia.
Qed.

(** More fuel than the input has characters changes nothing. *)
Lemma process_loop_fuel (n fuel1 fuel2 : nat) (content : str) (st : state) :
  (length content <= n)%nat -> (n <= fuel1)%nat -> (n <= fuel2)%nat ->
  process_loop fuel1 content st = process_loop fuel2 content st.
Proof.
  revert fuel1 fuel2 content st; induction n as [|n IH];
    intros fuel1 fuel2 content st Hlen H1 H2.
  - destruct content; [|simpl in Hlen; lia]. destruct fuel1, fuel2; reflexivity.
  - destruct content as [|c rest]; [destruct fuel1, fuel2; reflexivity|].
    destruct fuel1 as [|fuel1]; [lia|]. destruct fuel2 as [|fuel2]; [lia|].
    cbn [process_loop].
    destruct (if N.eqb c ESC && (1 <? Z.of_nat (length (c :: rest)))
              then re_match_ansi (c :: rest) else None) as [sequence|] eqn:F.
    + apply bind_ext. intros st'. apply IH; try lia.
      destruct (N.eqb c ESC && (1 <? Z.of_nat (length (c :: rest))));
        [|discriminate].
      apply re_match_ansi_prefix in F as (x & sq & rest' & -> & E).
      rewrite E, skipn_match.
      apply (f_equal (@length char)) in E. rewrite length_app in E.
      simpl in *. lia.
    + apply bind_ext. intros st'. apply IH; simpl in Hlen; lia.
Qed.

(** ** The invariants along a run *)

Lemma init_state_wf : wf init_state.
Proof. repeat split; simpl; try lia. constructor. Qed.

Lemma init_state_printable : printable init_state.
Proof. constructor. Qed.

Lemma process_loop_wf (fuel : nat) (content : str) (st : state) :
  (length content <= fuel)%nat -> wf st ->
  match process_loop fuel content st with
  | OK st' => wf st'
  | Error e => e = ValueError
  end.
Proof.
  revert content st; induction fuel as [|fuel IH]; intros content st Hlen Hwf.
  - destruct content; [exact Hwf | simpl in Hlen; lia].
  - destruct content as [|c rest]; [exact Hwf|].
    cbn [process_loop].
    destruct (if N.eqb c ESC && (1 <? Z.of_nat (length (c :: rest)))
              then re_match_ansi (c :: rest) else None) as [sequence|] eqn:F.
    + pose proof (process_escape_sequence_wf (tl sequence) st Hwf) as P.
      destruct (process_escape_sequence (tl sequence) st) as [st'|e]; simpl; auto.
      apply IH; auto.
      destruct (N.eqb c ESC && (1 <? Z.of_nat (length (c :: rest))));
        [|discriminate].
      apply re_match_ansi_prefix in F as (x & sq & rest' & -> & E).
      rewrite E, skipn_match.
      apply (f_equal (@length char)) in E. rewrite length_app in E.
      simpl in *. lia.
    + destruct (negb (N.eqb c ESC)).
      * destruct (insert_text_wf [c] st Hwf) as (st' & -> & W); simpl.
        apply IH; auto. simpl in Hlen; lia.
      * simpl. apply IH; auto. simpl in Hlen; lia.
Qed.

Lemma process_loop_printable (fuel : nat) (content : str) (st st' : state) :
  process_loop fuel content st = OK st' -> printable st -> printable st'.
Proof.
  revert content st; induction fuel as [|fuel IH]; intros content st H Hp.
  - destruct content; simpl in H; [injection H as <-; exact Hp | discriminate].
  - destruct content as [|c rest]; [injection H as <-; exact Hp|].
    cbn [process_loop] in H.
    destruct (if N.eqb c ESC && (1 <? Z.of_nat (length (c :: rest)))
              then re_match_ansi (c :: rest) else None) as [sequence|].
    + apply bind_ok in H as (st1 & H1 & H).
      pose proof (process_escape_sequence_printable (tl sequence) st Hp) as P.
      rewrite H1 in P. eapply IH; eauto.
    + apply bind_ok in H as (st1 & H1 & H).
      eapply IH; [exact H|].
      destruct (negb (N.eqb c ESC)).
      * eapply insert_text_printable; eauto.
      * injection H1 as <-; exact Hp.
Qed.

Lemma run_op_wf (o : op) (st : state) :
  wf st -> count_ok o ->
  match run_op o st with
  | OK st' => wf st'
  | Error e => e = ValueError
  end.
Proof.
  intros Hwf Hc. destruct o; simpl in *.
  - apply ensure_screen_size_wf; exact Hwf.
  - apply set_cursor_wf; apply Hwf.
  - apply move_cursor_up_wf; exact Hwf.
  - apply move_cursor_down_wf; auto.
  - apply move_cursor_forward_wf; auto.
  - apply move_cursor_backward_wf; exact Hwf.
  - destruct (clear_line_total mode st (proj1 Hwf)) as (st' & E).
    rewrite E. eapply clear_line_wf; eauto.
  - apply clear_screen_wf; exact Hwf.
  - destruct (insert_text_wf text st Hwf) as (st' & -> & W); exact W.
  - apply process_escape_sequence_wf; exact Hwf.
  - exact Hwf.
Qed.

Lemma run_ops_wf (ops : list op) (st : state) :
  wf st -> Forall count_ok ops ->
  match run_ops ops st with
  | OK st' => wf st'
  | Error e => e = ValueError
  end.
Proof.
  revert st; induction ops as [|o ops IH]; simpl; intros st Hwf Hc; auto.
  inversion Hc as [|? ? Ho Hops]; subst.
  pose proof (run_op_wf o st Hwf Ho) as P.
  destruct (run_op o st) as [st1|e]; simpl; [apply IH; assumption | exact P].
Qed.

Lemma run_op_printable (o : op) (st st' : state) :
  run_op o st = OK st' -> printable st -> printable st'.
Proof.
  destruct o; simpl; intros H Hp; try (injection H as <-).
  - apply ensure_screen_size_printable; exact Hp.
  - unfold set_cursor; apply ensure_screen_size_printable; exact Hp.
  - exact Hp.
  - unfold move_cursor_down; apply ensure_screen_size_printable; exact Hp.
  - unfold move_cursor_forward; apply ensure_screen_size_printable; exact Hp.
  - exact Hp.
  - eapply clear_line_printable; eauto.
  - apply clear_screen_printable; exact Hp.
  - eapply insert_text_printable; eauto.
  - pose proof (process_escape_sequence_printable sequence st Hp) as P.
    rewrite H in P; exact P.
  - exact Hp.
Qed.

Lemma run_ops_printable (ops : list op) (st st' : state) :
  run_ops ops st = OK st' -> printable st -> printable st'.
Proof.
  revert st; induction ops as [|o ops IH]; simpl; intros st H Hp.
  - injection H as <-; exact Hp.
  - apply bind_ok in H as (st1 & H1 & H). eapply IH; eauto.
    eapply run_op_printable; eauto.
Qed.

(** ** The final text *)

Lemma rstrip_Forall (P : char -> Prop) (s : str) :
  Forall P s -> Forall P (rstrip s).
Proof.
  induction 1 as [|c s Hc Hs IH]; simpl; [constructor|].
  destruct (rstrip s) as [|x t].
  - destruct (is_space c); constructor; auto.
  - constructor; auto.
Qed.

Lemma firstn_Forall {A : Type} (P : A -> Prop) (n : nat) (l : list A) :
  Forall P l -> Forall P (firstn n l).
Proof.
  intros H. rewrite Forall_forall in *. intros x Hx. apply H.
  rewrite <- (firstn_skipn n l). apply in_or_app; left; exact Hx.
Qed.

Lemma row_line_Forall (P : char -> Prop) (row : list char) :
  Forall P row -> Forall P (row_line row).
Proof.
  intros H. unfold row_line. apply rstrip_Forall.
  destruct (0 <=? last_char_from (length row) row); [|constructor].
  apply firstn_Forall; exact H.
Qed.

Lemma pop_empty_Forall (Q : str -> Prop) (ls : list str) :
  Forall Q ls -> Forall Q (pop_empty ls).
Proof.
  induction 1 as [|l ls Hl Hls IH]; simpl; [constructor|].
  destruct (pop_empty ls) as [|x t].
  - destruct l; constructor; auto.
  - constructor; auto.
Qed.

Lemma result_lines_printable (st : state) :
  printable st -> Forall (Forall printable_char) (result_lines_of st).
Proof.
  intros H. unfold result_lines_of. apply pop_empty_Forall.
  apply Forall_forall. intros l Hl.
  apply in_map_iff in Hl as (row & <- & Hrow).
  apply row_line_Forall.
  pose proof (firstn_Forall (Forall printable_char)
                (Z.to_nat (last_content_row_from 0 (-1) (screen st) + 1))
                (screen st) H) as F.
  rewrite Forall_forall in F. apply F; exact Hrow.
Qed.

Lemma join_LF_chars (P : char -> Prop) (lines : list str) :
  Forall (Forall P) lines ->
  Forall (fun c => c = LF \/ P c) (join [LF] lines).
Proof.
  induction 1 as [|l ls Hl Hls IH]; simpl; [constructor|].
  assert (L : Forall (fun c => c = LF \/ P c) l).
  { eapply Forall_impl; [|exact Hl]. auto. }
  destruct ls as [|l2 ls']; [exact L|].
  apply Forall_app; split; [exact L|].
  constructor; auto.
Qed.

(** ** Texts of sequences *)

Lemma endswith_snoc (s : str) (t c : char) : endswith (s ++ [t]) c = N.eqb t c.
Proof.
  unfold endswith. rewrite rev_app_distr. reflexivity.
Qed.

Lemma init_snoc (s : str) (t : char) : init (s ++ [t]) = s.
Proof.
  unfold init. apply removelast_last.
Qed.

Lemma split_no_sep (sep : char) (s : str) :
  forallb (fun c => negb (N.eqb c sep)) s = true -> split sep s = [s].
Proof.
  induction s as [|c s IH]; simpl; intros H; [reflexivity|].
  apply andb_prop in H as [Hc Hs].
  apply negb_true_iff in Hc. rewrite Hc, IH by exact Hs. reflexivity.
Qed.

Lemma split_app_sep (sep : char) (a b : str) :
  forallb (fun c => negb (N.eqb c sep)) a = true ->
  split sep (a ++ sep :: b) = a :: split sep b.
Proof.
  induction a as [|c a IH]; simpl; intros H.
  - rewrite N.eqb_refl. reflexivity.
  - apply andb_prop in H as [Hc Ha].
    apply negb_true_iff in Hc. rewrite Hc, IH by exact Ha. reflexivity.
Qed.

Lemma digits_no_semicolon (s : str) :
  forallb is_digit s = true ->
  forallb (fun c => negb (N.eqb c (chr ";"))) s = true.
Proof.
  intros H. apply forallb_forall. intros c Hc.
  rewrite forallb_forall in H. specialize (H c Hc).
  apply is_digit_ord in H. apply negb_true_iff, N.eqb_neq.
  unfold ord in H. simpl. lia.
Qed.

Lemma digit_not_letter (c : char) : is_param c = true -> is_letter c = false.
Proof.
  unfold is_param, is_letter, is_digit. intros H.
  apply orb_prop in H as [H|H].
  - apply andb_prop in H as [H1 H2]. apply N.leb_le in H1, H2.
    apply orb_false_iff; split; apply andb_false_iff.
    + left; apply N.leb_gt; lia.
    + left; apply N.leb_gt; lia.
  - apply N.eqb_eq in H; subst c. reflexivity.
Qed.

Lemma letter_not_param (c : char) : is_letter c = true -> is_param c = false.
Proof.
  intros H. destruct (is_param c) eqn:E; auto.
  apply digit_not_letter in E. congruence.
Qed.

(** The scanner recognises every sequence of the first form of the
    pattern: the marker, [[], a run of digits and [;], one letter. *)
Lemma re_match_ansi_csi (params : str) (t : char) (rest : str) :
  forallb is_param params = true -> is_letter t = true ->
  re_match_ansi (ESC :: 91%N :: params ++ t :: rest)
  = Some (ESC :: 91%N :: params ++ [t]).
Proof.
  intros Hp Ht. unfold re_match_ansi, ESC.
  rewrite match_run_complete; auto using letter_not_param.
Qed.

(** The second form: the same with [?] after the bracket. *)
Lemma re_match_ansi_private (params : str) (t : char) (rest : str) :
  forallb is_param params = true -> is_letter t = true ->
  re_match_ansi (ESC :: 91%N :: 63%N :: params ++ t :: rest)
  = Some (ESC :: 91%N :: 63%N :: params ++ [t]).
Proof.
  intros Hp Ht. unfold re_match_ansi, ESC.
  assert (E : match_run is_param is_letter (63%N :: params ++ t :: rest) = None)
    by reflexivity.
  rewrite E. rewrite match_run_complete; auto using letter_not_param.
Qed.

Lemma py_int_or_one (p : str) :
  py_int (match p with [] => codes "1" | x :: q => x :: q end) = int_or p 1.
Proof.
  destruct p; reflexivity.
Qed.

Lemma insert_text_single (ch : char) (st : state) :
  insert_text [ch] st = insert_char ch st.
Proof.
  simpl. destruct (insert_char ch st); reflexivity.
Qed.

(** The arm for [H] and [f] on a row text and a column text that hold no
    separator: both are read with default 1. *)
Lemma cursor_position_two_fields (st : state) (rs cs : str) (t : char) :
  t = chr "H" \/ t = chr "f" ->
  forallb is_digit rs = true -> forallb is_digit cs = true ->
  process_escape_sequence (91%N :: (rs ++ chr ";" :: cs) ++ [t]) st =
  (r <- int_or rs 1 ;; c <- int_or cs 1 ;; OK (set_cursor (r - 1) (c - 1) st)).
Proof.
  intros Ht Hr Hc. unfold process_escape_sequence.
  rewrite !endswith_snoc, init_snoc.
  replace (N.eqb t (chr "H") || N.eqb t (chr "f")) with true
    by (destruct Ht; subst t; reflexivity).
  assert (E : split (chr ";") (rs ++ chr ";" :: cs) = [rs; cs]).
  { rewrite split_app_sep by (apply digits_no_semicolon; exact Hr).
    rewrite split_no_sep by (apply digits_no_semicolon; exact Hc). reflexivity. }
  destruct (rs ++ chr ";" :: cs) as [|x p] eqn:El; [destruct rs; discriminate|].
  rewrite E. cbn [nth nth_error].
  rewrite !py_int_or_one. reflexivity.
Qed.

(** The same arm when the text before the terminator holds no separator at
    all: it is the row, and the column takes its default. *)
Lemma cursor_position_one_field (st : state) (rs : str) (t : char) :
  t = chr "H" \/ t = chr "f" ->
  forallb is_digit rs = true ->
  process_escape_sequence (91%N :: rs ++ [t]) st =
  (r <- int_or rs 1 ;; OK (set_cursor (r - 1) (1 - 1) st)).
Proof.
  intros Ht Hr. unfold process_escape_sequence.
  rewrite !endswith_snoc, init_snoc.
  replace (N.eqb t (chr "H") || N.eqb t (chr "f")) with true
    by (destruct Ht; subst t; reflexivity).
  destruct rs as [|x rs]; [reflexivity|].
  rewrite split_no_sep by (apply digits_no_semicolon; exact Hr).
  cbn [nth nth_error]. rewrite (py_int_or_one (x :: rs)).
  destruct (int_or (x :: rs) 1); reflexivity.
Qed.

Lemma set_cursor_cursor (row col : Z) (st : state) :
  cursor_row (set_cursor row col st) = Z.max 0 row /\
  cursor_col (set_cursor row col st) = Z.max 0 col.
Proof.
  unfold set_cursor.
  destruct (ensure_screen_size_cursor
              (cursor_row (with_cursor_col (Z.max 0 col) (with_cursor_row (Z.max 0 row) st)))
              (cursor_col (with_cursor_col (Z.max 0 col) (with_cursor_row (Z.max 0 row) st)))
              (with_cursor_col (Z.max 0 col) (with_cursor_row (Z.max 0 row) st)))
    as [-> ->].
  split; reflexivity.
Qed.

(** After [set_cursor] on a rectangular grid the next printable character
    lands in the cell of the cursor. *)
Lemma set_cursor_then_write (st : state) (row col : Z) (ch : char) :
  rect st -> 32 <= ord ch ->
  exists st2,
    insert_text [ch] (set_cursor row col st) = OK st2 /\
    cell st2 (Z.to_nat (Z.max 0 row)) (Z.to_nat (Z.max 0 col)) = Some ch.
Proof.
  intros Hrect Hch.
  destruct (insert_char_printable_char ch (set_cursor row col st)
              (set_cursor_wf row col st Hrect) Hch) as (st2 & H & Hcell & _).
  destruct (set_cursor_cursor row col st) as [E1 E2].
  rewrite E1, E2 in Hcell.
  exists st2. rewrite insert_text_single. auto.
Qed.

(** ** The equations of the scanner's loop *)

Lemma process_loop_step (fuel : nat) (c : char) (rest : str) (st : state) :
  process_loop (S fuel) (c :: rest) st =
  match (if N.eqb c ESC && (1 <? Z.of_nat (length (c :: rest)))
         then re_match_ansi (c :: rest) else None) with
  | Some sequence =>
      st' <- process_escape_sequence (tl sequence) st ;;
      process_loop fuel (skipn (length sequence) (c :: rest)) st'
  | None =>
      st' <- (if negb (N.eqb c ESC) then insert_text [c] st else OK st) ;;
      process_loop fuel rest st'
  end.
Proof. reflexivity. Qed.

Lemma process_loop_head (c : char) (rest : str) (st : state) :
  process_loop (length (c :: rest)) (c :: rest) st =
  match (if N.eqb c ESC && (1 <? Z.of_nat (length (c :: rest)))
         then re_match_ansi (c :: rest) else None) with
  | Some sequence =>
      st' <- process_escape_sequence (tl sequence) st ;;
      process_loop (length rest) (skipn (length sequence) (c :: rest)) st'
  | None =>
      st' <- (if negb (N.eqb c ESC) then insert_text [c] st else OK st) ;;
      process_loop (length rest) rest st'
  end.
Proof. exact (process_loop_step (length rest) c rest st). Qed.

Lemma process_loop_sequence (content sequence : str) (st : state) :
  re_match_ansi content = Some (ESC :: sequence) ->
  process_loop (length content) content st =
  (st' <- process_escape_sequence sequence st ;;
   process_loop (length (skipn (S (length sequence)) content))
                (skipn (S (length sequence)) content) st').
Proof.
  intros Hm.
  destruct (re_match_ansi_prefix _ _ Hm) as (x & sq & rest & E & Hc).
  injection E as ->.
  destruct content as [|c content]; [discriminate|].
  injection Hc as -> ->.
  rewrite process_loop_head.
  assert (T : N.eqb ESC ESC && (1 <? Z.of_nat (length (ESC :: x :: sq ++ rest))) = true).
  { apply andb_true_intro; split; [reflexivity|].
    apply Z.ltb_lt. cbn [length]. lia. }
  cbn [app] in *. rewrite T, Hm. cbn [tl]. apply bind_ext. intros st'.
  change (S (length (x :: sq))) with (length (ESC :: x :: sq)).
  change (ESC :: x :: sq ++ rest) with ((ESC :: x :: sq) ++ rest).
  rewrite skipn_match.
  apply (process_loop_fuel (length rest)); auto.
  cbn [length]. rewrite length_app. lia.
Qed.

Lemma process_loop_char (c : char) (rest : str) (st : state) :
  c <> ESC ->
  process_loop (length (c :: rest)) (c :: rest) st =
  (st' <- insert_char c st ;; process_loop (length rest) rest st').
Proof.
  intros Hc. rewrite process_loop_head.
  apply N.eqb_neq in Hc. rewrite Hc. cbn [andb negb].
  rewrite insert_text_single. reflexivity.
Qed.

Lemma process_loop_unmatched (rest : str) (st : state) :
  re_match_ansi (ESC :: rest) = None ->
  process_loop (length (ESC :: rest)) (ESC :: rest) st =
  process_loop (length rest) rest st.
Proof.
  intros Hm. rewrite process_loop_head, Hm.
  rewrite N.eqb_refl. cbn [andb negb].
  destruct (1 <? Z.of_nat (length (ESC :: rest))); reflexivity.
Qed.

Lemma bind_assoc {A B C : Type} (m : result A) (f : A -> result B)
      (g : B -> result C) :
  bind (bind m f) g = bind m (fun a => bind (f a) g).
Proof.
  destruct m; reflexivity.
Qed.

(** Characters other than the escape marker are written one by one, in
    order, before the scanner goes on. *)
Lemma process_loop_text (pre s : str) (st : state) :
  Forall (fun ch => ch <> ESC) pre ->
  process_loop (length (pre ++ s)) (pre ++ s) st =
  (st' <- insert_text pre st ;; process_loop (length s) s st').
Proof.
  intros H; revert st; induction H as [|c pre Hc Hpre IH]; intros st.
  - reflexivity.
  - cbn [app]. rewrite process_loop_char by exact Hc.
    cbn [insert_text]. rewrite bind_assoc.
    apply bind_ext. intros st1. apply IH.
Qed.

Lemma cell_printable (st : state) (r c : nat) (ch : char) :
  printable st -> cell st r c = Some ch -> 32 <= ord ch.
Proof.
  unfold printable, cell. intros Hp H.
  destruct (nth_error (screen st) r) as [row|] eqn:Er; [|discriminate].
  rewrite Forall_forall in Hp. specialize (Hp row (nth_error_In _ _ Er)).
  rewrite Forall_forall in Hp. apply Hp. eapply nth_error_In; eauto.
Qed.

Lemma get_final_text_times_eq (n : nat) (st : state) :
  get_final_text_times n st = (repeat (fst (get_final_text st)) n, st).
Proof.
  induction n as [|n IH]; simpl; [reflexivity|].
  rewrite IH. reflexivity.
Qed.

(** ** Which sequences read a number *)

Lemma not_in_cons {A : Type} (x a : A) (l : list A) :
  ~ In x (a :: l) -> x <> a /\ ~ In x l.
Proof.
  intros H; split; [intros ->; apply H; left; reflexivity
                   | intros Hi; apply H; right; exact Hi].
Qed.

(** A terminator that no arm of [process_escape_sequence] tests for: the
    sequence is ignored, whatever precedes the terminator. *)
Lemma csi_other_letter_ignored (st : state) (p : str) (t : char) :
  ~ In t (codes "HfABCDGKJ") ->
  process_escape_sequence (91%N :: p ++ [t]) st = OK st.
Proof.
  intros H. unfold process_escape_sequence. rewrite !endswith_snoc.
  cbn [codes] in H.
  repeat (apply not_in_cons in H as [?N H]).
  repeat match goal with
         | Hn : t <> _ |- _ => apply N.eqb_neq in Hn; cbn in Hn
         end.
  cbn [chr N_of_ascii N_of_digits].
  repeat match goal with
         | Hn : N.eqb t _ = false |- _ => cbn in Hn |- *; rewrite Hn; clear Hn
         end.
  cbn [orb]. destruct (N.eqb t _); reflexivity.
Qed.

Lemma int_or_malformed (p : str) (d : Z) :
  p <> [] -> forallb is_digit p = false -> int_or p d = Error ValueError.
Proof.
  intros Hne Hd. unfold int_or. destruct p as [|x p]; [congruence|].
  destruct (py_int (x :: p)) as [n|e] eqn:E.
  - assert (K : exists n, py_int (x :: p) = OK n) by eauto.
    apply py_int_ok_iff in K as [_ K]. congruence.
  - apply py_int_error in E. subst; reflexivity.
Qed.

(** The arms that read one number fail on a text that is present and is
    not a run of digits. *)
Lemma csi_count_malformed (st : state) (p : str) (t : char) :
  In t (codes "ABCDGKJ") -> p <> [] -> forallb is_digit p = false ->
  process_escape_sequence (91%N :: p ++ [t]) st = Error ValueError.
Proof.
  intros Ht Hne Hd. unfold process_escape_sequence.
  rewrite !endswith_snoc, init_snoc.
  cbn [codes In] in Ht.
  repeat (destruct Ht as [<-|Ht]; [cbn; rewrite int_or_malformed by assumption; reflexivity|]).
  contradiction.
Qed.





(** ** Private-mode sequences *)

(** A private-mode sequence whose letter no command has is ignored. *)
Lemma private_sequence_ignored (st : state) (params : str) (t : char) :
  ~ In t (codes "HfABCDGKJ") ->
  process_escape_sequence (91%N :: 63%N :: params ++ [t]) st = OK st.
Proof.
  intros H. apply (csi_other_letter_ignored st (63%N :: params) t H).
Qed.

(** The arm for [H] and [f] fails when its text begins with a character
    that is neither a digit nor the separator. *)
Lemma csi_position_malformed (st : state) (x : char) (p : str) (t : char) :
  In t (codes "Hf") -> is_digit x = false -> N.eqb x (chr ";") = false ->
  process_escape_sequence (91%N :: (x :: p) ++ [t]) st = Error ValueError.
Proof.
  intros Ht Hd Hs. unfold process_escape_sequence.
  rewrite !endswith_snoc, init_snoc.
  replace (N.eqb t (chr "H") || N.eqb t (chr "f")) with true
    by (cbn [codes In] in Ht; destruct Ht as [<-|[<-|[]]]; reflexivity).
  cbn [split]. rewrite Hs.
  assert (E : forall w, py_int (x :: w) = Error ValueError).
  { intros w. unfold py_int. cbn [digits_value]. rewrite Hd. reflexivity. }
  destruct (split (chr ";") p) as [|w ws]; cbn [nth]; rewrite E; reflexivity.
Qed.

(** A private-mode sequence whose letter is that of a command that reads
    a number is given to that command, and the question mark is no digit. *)
Lemma private_sequence_raises (st : state) (params : str) (t : char) :
  In t (codes "HfABCDGKJ") ->
  process_escape_sequence (91%N :: 63%N :: params ++ [t]) st = Error ValueError.
Proof.
  intros Ht. cbn [codes In] in Ht.
  destruct Ht as [Ht|[Ht|Ht]].
  - apply (csi_position_malformed st 63%N params t);
      [left; exact Ht | reflexivity | reflexivity].
  - apply (csi_position_malformed st 63%N params t);
      [right; left; exact Ht | reflexivity | reflexivity].
  - apply (csi_count_malformed st (63%N :: params) t);
      [exact Ht | discriminate | reflexivity].
Qed.

(** * The claims *)

(** C1 fails on the code.  The scanner recognises [ESC[?25H]; the
    interpreter looks at the last letter only, takes the sequence for a
    cursor position and raises [ValueError] on the text "?25".  The same
    happens with each letter of a command that reads a number, while the
    mode letters h and l, and m, leave the state alone. *)
Theorem private_sequence_with_command_letter_raises :
  re_match_ansi (ESC :: codes "[?25H") = Some (ESC :: codes "[?25H") /\
  run (ESC :: codes "[?25H") = Error ValueError /\
  Forall (fun t => forall st,
              process_escape_sequence (codes "[?25" ++ [t]) st = Error ValueError)
         (codes "HfABCDGKJ") /\
  (forall st, process_escape_sequence (codes "[?25h") st = OK st) /\
  (forall st, process_escape_sequence (codes "[?25l") st = OK st) /\
  (forall st, process_escape_sequence (codes "[?25m") st = OK st).
Proof.
  split; [reflexivity|]. split; [vm_compute; reflexivity|].
  split; [|repeat split; reflexivity].
  repeat constructor; intros st;
    apply (private_sequence_raises st (codes "25")); cbn; tauto.
Qed.

(** C2, as the code has it.  [ESC[2K] blanks the row and leaves the cursor
    where it is: after "A" and the sequence the cursor is still at column 1
    and column 0 holds a space; the two characters " B" then go to columns 1
    and 2, and the text is two spaces followed by B (leading spaces are
    kept, trailing ones trimmed). *)
Theorem erase_line_keeps_cursor_column :
  (exists st,
      process_loop 5 (codes "A" ++ ESC :: codes "[2K") init_state = OK st /\
      cursor_row st = 0 /\ cursor_col st = 1 /\ cell st 0 0 = Some SP) /\
  (exists st,
      process_loop 7 (codes "A" ++ ESC :: codes "[2K B") init_state = OK st /\
      cell st 0 0 = Some SP /\ cell st 0 1 = Some SP /\
      cell st 0 2 = Some (chr "B") /\ cursor_col st = 3) /\
  run (codes "A" ++ ESC :: codes "[2K B") = OK (codes "  B") /\
  run (codes "A" ++ ESC :: codes "[2K B   ") = OK (codes "  B").
Proof.
  split; [|split; [|split]].
  - destruct (process_loop 5 (codes "A" ++ ESC :: codes "[2K") init_state)
      as [st|e] eqn:E; vm_compute in E; [|discriminate].
    exists st. injection E as <-. repeat split; reflexivity.
  - destruct (process_loop 7 (codes "A" ++ ESC :: codes "[2K B") init_state)
      as [st|e] eqn:E; vm_compute in E; [|discriminate].
    exists st. injection E as <-. repeat split; reflexivity.
  - vm_compute; reflexivity.
  - vm_compute; reflexivity.
Qed.

(** C2, as the specification words it: the text is not one space followed
    by B. *)
Lemma erase_line_output_is_not_one_space_B :
  run (codes "A" ++ ESC :: codes "[2K B") <> OK (codes " B").
Proof.
  vm_compute. discriminate.
Qed.




(** C4. [ESC[2J] empties the grid and homes the cursor.  Whatever the
    state, processing the sequence leaves no row and the cursor at (0, 0),
    and a printable character written next lands in row 0, column 0; the
    input "Hello", [ESC[2J], " World" gives the text " World". *)
Theorem erase_screen_resets :
  (forall st,
      exists st0,
        process_escape_sequence (codes "[2J") st = OK st0 /\
        screen st0 = [] /\ cursor_row st0 = 0 /\ cursor_col st0 = 0 /\
        forall ch, 32 <= ord ch ->
                   exists st2, insert_text [ch] st0 = OK st2 /\
                               cell st2 0 0 = Some ch) /\
  run (codes "Hello" ++ ESC :: codes "[2J World") = OK (codes " World").
Proof.
  split; [|vm_compute; reflexivity].
  intros st.
  exists (with_cursor_col 0 (with_cursor_row 0 (with_screen [] st))).
  split; [reflexivity|]. split; [reflexivity|].
  split; [reflexivity|]. split; [reflexivity|].
  intros ch Hch.
  set (st0 := with_cursor_col 0 (with_cursor_row 0 (with_screen [] st))).
  assert (W : wf st0) by (repeat split; simpl; try lia; constructor).
  destruct (insert_char_printable_char ch st0 W Hch) as (st2 & H & Hcell & _).
  exists st2. rewrite insert_text_single. split; [exact H | exact Hcell].
Qed.

(** After the sequence on the example grid, the letter W goes into the
    first cell. *)
Lemma erase_screen_resets_witness :
  32 <= ord (chr "W") /\
  exists st0 st2,
    process_escape_sequence (codes "[2J") example_grid = OK st0 /\
    insert_text [chr "W"] st0 = OK st2 /\ cell st2 0 0 = Some (chr "W").
Proof.
  assert (Hw : 32 <= ord (chr "W")) by (vm_compute; discriminate).
  split; [exact Hw|].
  destruct (proj1 erase_screen_resets example_grid) as (st0 & H0 & _ & _ & _ & K).
  destruct (K (chr "W") Hw) as (st2 & H2 & Hc).
  exists st0, st2. auto.
Defined.

(** C5. [ESC[r;cH] and [ESC[r;cf] place the cursor.  Let [rs] and [cs] be
    runs of digits, either possibly empty, denoting [r] and [c] with 1 for
    an empty run.  On a rectangular grid the sequence with both fields, and
    the sequence with the row field alone (then [c] is 1), is recognised by
    the scanner and leaves the cursor at ([max 0 (r-1)], [max 0 (c-1)]); the
    printable character written next lands in that cell.  The input
    "Line1", [ESC[1;1H], "Line2" gives the text "Line2". *)
Theorem cursor_position_places_next_write :
  (forall st rs cs t ch r c sequence,
      rect st ->
      t = chr "H" \/ t = chr "f" ->
      forallb is_digit rs = true -> forallb is_digit cs = true ->
      int_or rs 1 = OK r -> int_or cs 1 = OK c ->
      32 <= ord ch ->
      sequence = 91%N :: (rs ++ chr ";" :: cs) ++ [t] \/
      (cs = [] /\ sequence = 91%N :: rs ++ [t]) ->
      (forall rest, re_match_ansi (ESC :: sequence ++ rest) = Some (ESC :: sequence)) /\
      exists st1 st2,
        process_escape_sequence sequence st = OK st1 /\
        cursor_row st1 = Z.max 0 (r - 1) /\
        cursor_col st1 = Z.max 0 (c - 1) /\
        insert_text [ch] st1 = OK st2 /\
        cell st2 (Z.to_nat (Z.max 0 (r - 1))) (Z.to_nat (Z.max 0 (c - 1))) = Some ch) /\
  run (codes "Line1" ++ ESC :: codes "[1;1HLine2") = OK (codes "Line2").
Proof.
  split; [|vm_compute; reflexivity].
  intros st rs cs t ch r c sequence Hrect Ht Hrs Hcs Hr Hc Hch Hseq.
  assert (Hlet : is_letter t = true) by (destruct Ht; subst t; reflexivity).
  assert (Prs : forallb is_param rs = true).
  { apply forallb_forall. intros x Hx. rewrite forallb_forall in Hrs.
    unfold is_param. rewrite (Hrs x Hx). reflexivity. }
  assert (Pcs : forallb is_param cs = true).
  { apply forallb_forall. intros x Hx. rewrite forallb_forall in Hcs.
    unfold is_param. rewrite (Hcs x Hx). reflexivity. }
  destruct (set_cursor_cursor (r - 1) (c - 1) st) as [C1 C2].
  destruct (set_cursor_then_write st (r - 1) (c - 1) ch Hrect Hch) as (st2 & W & Hcell).
  destruct Hseq as [->|[-> ->]].
  - split.
    + intros rest. cbn [app]. rewrite <- app_assoc. cbn [app].
      apply re_match_ansi_csi; auto.
      rewrite forallb_app. cbn [forallb]. rewrite Prs, Pcs. reflexivity.
    + exists (set_cursor (r - 1) (c - 1) st), st2.
      rewrite cursor_position_two_fields by assumption.
      rewrite Hr, Hc. simpl bind. auto.
  - split.
    + intros rest. cbn [app]. rewrite <- app_assoc. cbn [app].
      apply re_match_ansi_csi; auto.
    + injection Hc as <-.
      exists (set_cursor (r - 1) (1 - 1) st), st2.
      rewrite cursor_position_one_field by assumption.
      rewrite Hr. simpl bind. auto.
Qed.

(** [ESC[3;7H] on the initial state, then an x: the cursor goes to (2, 6)
    and the x into that cell. *)
Lemma cursor_position_places_next_write_witness :
  rect init_state /\ int_or (codes "3") 1 = OK 3 /\ int_or (codes "7") 1 = OK 7 /\
  exists st1 st2,
    process_escape_sequence (codes "[3;7H") init_state = OK st1 /\
    cursor_row st1 = 2 /\ cursor_col st1 = 6 /\
    insert_text [chr "x"] st1 = OK st2 /\ cell st2 2 6 = Some (chr "x").
Proof.
  assert (R : rect init_state) by constructor.
  split; [exact R|]. split; [reflexivity|]. split; [reflexivity|].
  assert (Hx : 32 <= ord (chr "x")) by (vm_compute; discriminate).
  destruct (proj1 cursor_position_places_next_write
              init_state (codes "3") (codes "7") (chr "H") (chr "x") 3 7
              (codes "[3;7H") R (or_introl eq_refl) eq_refl eq_refl eq_refl eq_refl
              Hx (or_introl eq_refl))
    as (_ & st1 & st2 & H).
  exists st1, st2. exact H.
Defined.

(** C6. The cursor never goes negative.  From a well-formed state (cursor
    non-negative, grid rectangular; the initial state is one), every
    sequence of emulator operations whose counts are magnitudes, and every
    input text given to the scanner, ends in a state with [cursor_row >= 0]
    and [cursor_col >= 0], or stops on a malformed number ([ValueError]) and
    on no other failure; every prefix of a sequence of operations is such a
    sequence, so the invariant holds after each operation.  Cursor Up and
    Cursor Backward clamp at 0 for every integer argument and every state. *)
Theorem cursor_never_negative :
  (forall st ops, wf st -> Forall count_ok ops ->
     match run_ops ops st with
     | OK st' => cursor_ok st'
     | Error e => e = ValueError
     end) /\
  (forall st content, wf st ->
     match process_loop (length content) content st with
     | OK st' => cursor_ok st'
     | Error e => e = ValueError
     end) /\
  (forall st lines, 0 <= cursor_row (move_cursor_up lines st)) /\
  (forall st cols, 0 <= cursor_col (move_cursor_backward cols st)).
Proof.
  split; [|split; [|split]].
  - intros st ops Hwf Hc. pose proof (run_ops_wf ops st Hwf Hc) as P.
    destruct (run_ops ops st); [apply P | exact P].
  - intros st content Hwf.
    pose proof (process_loop_wf (length content) content st (le_n _) Hwf) as P.
    destruct (process_loop (length content) content st); [apply P | exact P].
  - intros st lines. simpl. lia.
  - intros st cols. simpl. lia.
Qed.

(** The example operations from the initial state. *)
Lemma cursor_never_negative_witness :
  wf init_state /\ Forall count_ok example_ops /\
  match run_ops example_ops init_state with
  | OK st' => cursor_ok st'
  | Error e => e = ValueError
  end.
Proof.
  assert (W : wf init_state) by (repeat split; simpl; try lia; constructor).
  assert (C : Forall count_ok example_ops) by (repeat constructor).
  split; [exact W|]. split; [exact C|].
  exact (proj1 cursor_never_negative init_state example_ops W C).
Defined.

(** C7. Growing the grid loses nothing and keeps it rectangular.  For every
    state and every requested position, [ensure_screen_size] keeps the
    character of every cell the grid had, every cell it adds holds a space,
    and the cursor stays; when every row had the standing width before, every
    row has the new standing width afterwards (equal lengths, no shorter than
    [max_cols]), the width and the height have not shrunk, and the requested
    row and column are inside the grid. *)
Theorem ensure_screen_size_only_adds_spaces (st : state) (row col : Z) :
  (forall r c ch, cell st r c = Some ch ->
                  cell (ensure_screen_size row col st) r c = Some ch) /\
  (forall r c ch, cell (ensure_screen_size row col st) r c = Some ch ->
                  cell st r c = Some ch \/ (cell st r c = None /\ ch = SP)) /\
  cursor_row (ensure_screen_size row col st) = cursor_row st /\
  cursor_col (ensure_screen_size row col st) = cursor_col st /\
  (rect st ->
   Forall (fun screen_row =>
             Z.of_nat (length screen_row)
             = Z.max 0 (max_cols (ensure_screen_size row col st)))
          (screen (ensure_screen_size row col st)) /\
   max_cols st <= max_cols (ensure_screen_size row col st) /\
   (length (screen st) <= length (screen (ensure_screen_size row col st)))%nat /\
   row < Z.of_nat (length (screen (ensure_screen_size row col st))) /\
   col < max_cols (ensure_screen_size row col st)).
Proof.
  split; [intros r c ch; apply ensure_screen_size_keeps|].
  split; [intros r c ch; apply ensure_screen_size_adds_spaces|].
  split; [apply ensure_screen_size_cursor|].
  split; [apply ensure_screen_size_cursor|].
  intros Hrect.
  split; [apply (ensure_screen_size_rect row col st Hrect)|].
  split; [apply ensure_screen_size_max_cols|].
  split; [apply ensure_screen_size_rows|].
  split; [apply ensure_screen_size_rows | apply ensure_screen_size_max_cols].
Qed.

(** The example grid asked for row 1, column 5: the cell of 'b' keeps its
    character while the grid gets a second row and the width 55. *)
Lemma ensure_screen_size_only_adds_spaces_witness :
  rect example_grid /\ cell example_grid 0 1 = Some (chr "b") /\
  cell (ensure_screen_size 1 5 example_grid) 0 1 = Some (chr "b") /\
  max_cols (ensure_screen_size 1 5 example_grid) = 55 /\
  Forall (fun screen_row => Z.of_nat (length screen_row) = Z.max 0 55)
         (screen (ensure_screen_size 1 5 example_grid)).
Proof.
  assert (R : rect example_grid) by (repeat constructor).
  destruct (ensure_screen_size_only_adds_spaces example_grid 1 5)
    as (K & _ & _ & _ & G).
  split; [exact R|].
  split; [reflexivity|].
  split; [apply K; reflexivity|].
  split; [reflexivity|].
  exact (proj1 (G R)).
Defined.

(** C8. An escape marker that starts no recognised sequence is dropped.
    When the pattern does not match at an escape marker, processing the
    marker and what follows is processing what follows, from the same state:
    the marker writes nothing, moves nothing and raises nothing, and the
    characters after it are scanned in order.  After any text [pre] without
    markers, the run is: write [pre], then process what follows the marker.
    The same holds of the text returned.  Were the marker given to
    [insert_text], it would be ignored too. *)
Theorem unmatched_escape_is_dropped (rest : str) (st : state) :
  re_match_ansi (ESC :: rest) = None ->
  process_loop (length (ESC :: rest)) (ESC :: rest) st
  = process_loop (length rest) rest st /\
  process_content (ESC :: rest) st = process_content rest st /\
  (forall pre,
      Forall (fun ch => ch <> ESC) pre ->
      process_content (pre ++ ESC :: rest) st = process_content (pre ++ rest) st /\
      process_loop (length (pre ++ ESC :: rest)) (pre ++ ESC :: rest) st
      = (st' <- insert_text pre st ;; process_loop (length rest) rest st')) /\
  insert_text [ESC] st = OK st.
Proof.
  intros Hm. pose proof (process_loop_unmatched rest) as E.
  specialize (fun st0 => E st0 Hm).
  split; [apply E|].
  split; [unfold process_content; rewrite E; reflexivity|].
  split; [|reflexivity].
  intros pre Hpre.
  assert (L : process_loop (length (pre ++ ESC :: rest)) (pre ++ ESC :: rest) st
              = (st' <- insert_text pre st ;; process_loop (length rest) rest st')).
  { rewrite process_loop_text by exact Hpre.
    apply bind_ext. intros st1. apply E. }
  split; [|exact L].
  unfold process_content. rewrite L, (process_loop_text pre rest) by exact Hpre.
  reflexivity.
Qed.

(** The marker before "[1 ok": the bracket and the digit are followed by
    a space, so no form of the pattern matches, and the five characters are
    written as text. *)
Lemma unmatched_escape_is_dropped_witness :
  re_match_ansi (ESC :: codes "[1 ok") = None /\
  process_content (ESC :: codes "[1 ok") init_state
  = process_content (codes "[1 ok") init_state /\
  run (ESC :: codes "[1 ok") = OK (codes "[1 ok").
Proof.
  assert (M : re_match_ansi (ESC :: codes "[1 ok") = None) by reflexivity.
  split; [exact M|].
  split; [exact (proj1 (proj2 (unmatched_escape_is_dropped (codes "[1 ok") init_state M)))|].
  vm_compute; reflexivity.
Defined.

(** C9. Finalization observes and does not change.  [get_final_text]
    leaves the state it was called on, grid and cursor, and any number of
    calls in a row return the same text each time. *)
Theorem get_final_text_observational (st : state) :
  snd (get_final_text st) = st /\
  forall n, get_final_text_times n st = (repeat (fst (get_final_text st)) n, st).
Proof.
  split; [reflexivity | intros n; apply get_final_text_times_eq].
Qed.

(** C10. No cell ever holds a control character.  In every state reached
    from the initial one, by the scanner on any input or by any sequence of
    emulator operations, every cell holds a character of code at least 32
    (the space is one); so the text produced for any input is lines joined
    by line feeds, the lines hold characters of code at least 32 only, and
    every character of the text is a line feed or has code at least 32. *)
Theorem cells_hold_no_control_character :
  (forall content st',
      process_loop (length content) content init_state = OK st' ->
      forall r c ch, cell st' r c = Some ch -> 32 <= ord ch) /\
  (forall ops st',
      run_ops ops init_state = OK st' ->
      forall r c ch, cell st' r c = Some ch -> 32 <= ord ch) /\
  (forall content out,
      run content = OK out ->
      exists lines,
        out = join [LF] lines /\
        Forall (Forall (fun ch => 32 <= ord ch)) lines /\
        Forall (fun ch => ch = LF \/ 32 <= ord ch) out).
Proof.
  split; [|split].
  - intros content st' H r c ch. apply cell_printable.
    eapply process_loop_printable; eauto. apply init_state_printable.
  - intros ops st' H r c ch. apply cell_printable.
    eapply run_ops_printable; eauto. apply init_state_printable.
  - intros content out H. unfold run, process_content in H.
    apply bind_ok in H as ([out0 st1] & H & Hout). injection Hout as <-.
    apply bind_ok in H as (st' & H & Hg). injection Hg as <- <-.
    assert (P : printable st').
    { eapply process_loop_printable; eauto. apply init_state_printable. }
    apply result_lines_printable in P.
    exists (result_lines_of st'). split; [reflexivity|]. split; [exact P|].
    apply (join_LF_chars printable_char); exact P.
Qed.

(** The example with control characters: the text holds the letters, the
    spaces the tab skipped and the line feed only. *)
Lemma cells_hold_no_control_character_witness :
  run example_controls = OK (codes "a       b" ++ LF :: codes "c") /\
  Forall (fun ch => ch = LF \/ 32 <= ord ch) (codes "a       b" ++ LF :: codes "c").
Proof.
  assert (R : run example_controls = OK (codes "a       b" ++ LF :: codes "c"))
    by (vm_compute; reflexivity).
  split; [exact R|].
  destruct (proj2 (proj2 cells_hold_no_control_character) example_controls _ R)
    as (lines & _ & _ & F).
  exact F.
Defined.

(** * Further properties *)

(** ** The final text *)

Lemma rstrip_app_space (s : str) (c : char) :
  is_space c = true -> rstrip (s ++ [c]) = rstrip s.
Proof.
  intros Hc; induction s as [|x s IH]; simpl.
  - rewrite Hc; reflexivity.
  - rewrite IH; reflexivity.
Qed.

Lemma rstrip_app_spaces (s pad : str) :
  Forall (eq SP) pad -> rstrip (s ++ pad) = rstrip s.
Proof.
  intros H; revert s; induction H as [|c pad Hc Hpad IH]; intros s.
  - rewrite app_nil_r; reflexivity.
  - subst c. change (s ++ SP :: pad) with (s ++ [SP] ++ pad).
    rewrite app_assoc, IH. apply rstrip_app_space. reflexivity.
Qed.

Lemma firstn_S_nth_error {A : Type} (n : nat) (l : list A) (x : A) :
  nth_error l n = Some x -> firstn (S n) l = firstn n l ++ [x].
Proof.
  revert l; induction n as [|n IH]; intros [|y l] H; try discriminate.
  - injection H as ->; reflexivity.
  - transitivity (y :: (firstn n l ++ [x])); [|reflexivity].
    change (firstn (S (S n)) (y :: l)) with (y :: firstn (S n) l).
    f_equal. apply IH; exact H.
Qed.

(** The scan for the last character that is no space finds what [rstrip]
    would cut anyway. *)
Lemma last_char_from_rstrip (n : nat) (row : list char) :
  (n <= length row)%nat ->
  rstrip (firstn (Z.to_nat (last_char_from n row + 1)) row) = rstrip (firstn n row).
Proof.
  induction n as [|n IH]; intros Hn; [reflexivity|].
  cbn [last_char_from].
  destruct (nth_error row n) as [ch|] eqn:E;
    [|apply nth_error_None in E; lia].
  rewrite (firstn_S_nth_error n row ch E).
  destruct (N.eqb ch SP) eqn:Ech; cbn [negb].
  - apply N.eqb_eq in Ech; subst ch.
    rewrite rstrip_app_space by reflexivity. apply IH; lia.
  - replace (Z.to_nat (Z.of_nat n + 1)) with (S n) by lia.
    rewrite (firstn_S_nth_error n row ch E). reflexivity.
Qed.

Lemma row_line_rstrip (row : list char) : row_line row = rstrip row.
Proof.
  unfold row_line.
  pose proof (last_char_from_rstrip (length row) row (le_n _)) as H.
  rewrite firstn_all in H.
  destruct (0 <=? last_char_from (length row) row) eqn:E; [exact H|].
  apply Z.leb_gt in E.
  replace (Z.to_nat (last_char_from (length row) row + 1)) with O in H by lia.
  exact H.
Qed.

Lemma blank_row_rstrip (row : list char) :
  has_content row = false -> rstrip row = [].
Proof.
  unfold has_content. induction row as [|c row IH]; simpl; intros H; [reflexivity|].
  apply orb_false_iff in H as [Hc Hrow].
  rewrite (IH Hrow). apply negb_false_iff, N.eqb_eq in Hc. subst c. reflexivity.
Qed.

Lemma last_content_row_from_bound (i l : Z) (rows : list (list char)) :
  last_content_row_from i l rows = l \/ i <= last_content_row_from i l rows.
Proof.
  revert i l; induction rows as [|row rows IH]; intros i l; cbn [last_content_row_from].
  - left; reflexivity.
  - destruct (has_content row).
    + destruct (IH (i + 1) i) as [->|H]; right; lia.
    + destruct (IH (i + 1) l) as [->|H]; [left; reflexivity | right; lia].
Qed.

Lemma pop_empty_cons_ext (l : str) (a b : list str) :
  pop_empty a = pop_empty b -> pop_empty (l :: a) = pop_empty (l :: b).
Proof.
  intros H. cbn [pop_empty]. rewrite H. reflexivity.
Qed.

(** Cutting the rows after the last one with content changes nothing once
    trailing empty lines are dropped. *)
Lemma last_content_row_from_pop (i l : Z) (rows : list (list char)) :
  l < i ->
  pop_empty (map rstrip (firstn (Z.to_nat (last_content_row_from i l rows + 1 - i)) rows))
  = pop_empty (map rstrip rows).
Proof.
  revert i l; induction rows as [|row rows IH]; intros i l Hl.
  - rewrite firstn_nil; reflexivity.
  - cbn [last_content_row_from].
    destruct (has_content row) eqn:Hc.
    + specialize (IH (i + 1) i ltac:(lia)).
      destruct (last_content_row_from_bound (i + 1) i rows) as [E|E].
      * rewrite E in *.
        replace (Z.to_nat (i + 1 - i)) with 1%nat by lia.
        replace (Z.to_nat (i + 1 - (i + 1))) with O in IH by lia.
        cbn [firstn map] in *. apply pop_empty_cons_ext. exact IH.
      * replace (Z.to_nat (last_content_row_from (i + 1) i rows + 1 - i))
          with (S (Z.to_nat (last_content_row_from (i + 1) i rows + 1 - (i + 1))))
          by lia.
        cbn [firstn map]. apply pop_empty_cons_ext. exact IH.
    + specialize (IH (i + 1) l ltac:(lia)).
      destruct (last_content_row_from_bound (i + 1) l rows) as [E|E].
      * rewrite E in *.
        replace (Z.to_nat (l + 1 - i)) with O by lia.
        replace (Z.to_nat (l + 1 - (i + 1))) with O in IH by lia.
        cbn [firstn map pop_empty] in *. rewrite <- IH.
        rewrite (blank_row_rstrip row Hc). reflexivity.
      * replace (Z.to_nat (last_content_row_from (i + 1) l rows + 1 - i))
          with (S (Z.to_nat (last_content_row_from (i + 1) l rows + 1 - (i + 1))))
          by lia.
        cbn [firstn map]. apply pop_empty_cons_ext. exact IH.
Qed.

Lemma result_lines_of_rstrip (st : state) :
  result_lines_of st = pop_empty (map rstrip (screen st)).
Proof.
  unfold result_lines_of.
  rewrite (map_ext row_line rstrip row_line_rstrip).
  pose proof (last_content_row_from_pop 0 (-1) (screen st) ltac:(lia)) as H.
  rewrite Z.sub_0_r in H. exact H.
Qed.

Lemma final_text_rstrip_rows (st : state) :
  fst (get_final_text st) = join [LF] (pop_empty (map rstrip (screen st))).
Proof.
  unfold get_final_text. cbn [fst]. rewrite result_lines_of_rstrip. reflexivity.
Qed.

(** X1. The final text is the rows with their trailing whitespace cut, the
    empty lines at the end dropped, joined by line feeds: the two scans of
    [get_final_text], for the last row with content and for the last
    character of a row that is no space, do not change that result. *)
Theorem get_final_text_is_rstrip_rows (st : state) :
  fst (get_final_text st) = join [LF] (pop_empty (map rstrip (screen st))).
Proof.
  exact (final_text_rstrip_rows st).
Qed.

Lemma ends_clean_cons (c : char) (t : str) :
  t <> [] -> ends_clean t -> ends_clean (c :: t).
Proof.
  unfold ends_clean. cbn [rev]. intros Hne H.
  destruct (rev t) as [|x r] eqn:E.
  - apply (f_equal (@rev char)) in E. rewrite rev_involutive in E. contradiction.
  - exact H.
Qed.

Lemma ends_clean_app (a b : str) :
  b <> [] -> ends_clean b -> ends_clean (a ++ b).
Proof.
  intros Hne H; induction a as [|c a IH]; [exact H|].
  cbn [app]. apply ends_clean_cons; [|exact IH].
  destruct a; [exact Hne | discriminate].
Qed.

Lemma rstrip_ends_clean (s : str) : ends_clean (rstrip s).
Proof.
  induction s as [|c s IH]; cbn [rstrip]; [exact I|].
  destruct (rstrip s) as [|x t] eqn:E.
  - destruct (is_space c) eqn:Ec; [exact I | exact Ec].
  - apply ends_clean_cons; [discriminate | exact IH].
Qed.

Lemma ends_clean_rstrip (s : str) : ends_clean s -> rstrip s = s.
Proof.
  induction s as [|c s IH]; intros H; [reflexivity|].
  cbn [rstrip]. destruct s as [|y s'].
  - cbn [rstrip]. unfold ends_clean in H. cbn in H. rewrite H. reflexivity.
  - assert (Hs : ends_clean (y :: s')).
    { unfold ends_clean in *. cbn [rev] in *.
      destruct (rev s' ++ [y]) as [|x r] eqn:E; [destruct (rev s'); discriminate|].
      exact H. }
    rewrite (IH Hs). reflexivity.
Qed.

Lemma rstrip_idempotent (s : str) : rstrip (rstrip s) = rstrip s.
Proof.
  apply ends_clean_rstrip, rstrip_ends_clean.
Qed.

Lemma rstrip_nil_iff (s : str) : rstrip s = [] <-> forallb is_space s = true.
Proof.
  induction s as [|c s IH]; cbn [rstrip forallb]; [tauto|].
  destruct (rstrip s) as [|x t].
  - destruct (is_space c); cbn [andb].
    + split; intros _; [apply IH; reflexivity | reflexivity].
    + split; intros H; discriminate.
  - split; intros H; [discriminate|].
    apply andb_prop in H as [_ H]. apply IH in H. discriminate.
Qed.

Lemma pop_empty_nil_iff (ls : list str) : pop_empty ls = [] <-> Forall (eq []) ls.
Proof.
  induction ls as [|l ls IH]; cbn [pop_empty].
  - split; [constructor | reflexivity].
  - destruct (pop_empty ls) as [|x t].
    + destruct l as [|c l].
      * split; intros _; [constructor; [reflexivity | apply IH; reflexivity]
                        | reflexivity].
      * split; intros H; [discriminate | inversion H; discriminate].
    + split; intros H; [discriminate|].
      inversion H as [|? ? _ H2]; subst. apply IH in H2. discriminate.
Qed.

(** What [pop_empty] leaves is empty or ends with a line that is not. *)
Lemma pop_empty_last (ls : list str) :
  pop_empty ls = [] \/ last (pop_empty ls) [] <> [].
Proof.
  induction ls as [|l ls IH]; cbn [pop_empty]; [left; reflexivity|].
  destruct (pop_empty ls) as [|x t].
  - destruct l; [left; reflexivity | right; discriminate].
  - right. destruct IH as [IH|IH]; [discriminate|]. exact IH.
Qed.

Lemma pop_empty_fixed (ls : list str) :
  ls = [] \/ last ls [] <> [] -> pop_empty ls = ls.
Proof.
  induction ls as [|l ls IH]; intros H; [reflexivity|].
  cbn [pop_empty]. destruct ls as [|l2 ls'].
  - cbn [pop_empty]. destruct H as [H|H]; [discriminate|].
    destruct l; [contradiction H; reflexivity | reflexivity].
  - rewrite IH; [reflexivity|]. right.
    destruct H as [H|H]; [discriminate | exact H].
Qed.

Lemma pop_empty_idempotent (ls : list str) : pop_empty (pop_empty ls) = pop_empty ls.
Proof.
  apply pop_empty_fixed. destruct (pop_empty_last ls); auto.
Qed.

Lemma join_nonempty (sep : str) (ls : list str) :
  last ls [] <> [] -> join sep ls <> [].
Proof.
  induction ls as [|l ls IH]; intros H; [contradiction H; reflexivity|].
  destruct ls as [|l2 ls'].
  - exact H.
  - change (join sep (l :: l2 :: ls')) with (l ++ sep ++ join sep (l2 :: ls')).
    intros E. apply app_eq_nil in E as [_ E]. apply app_eq_nil in E as [_ E].
    revert E. apply IH. exact H.
Qed.

Lemma join_ends_clean (ls : list str) :
  Forall ends_clean ls -> last ls [] <> [] -> ends_clean (join [LF] ls).
Proof.
  induction 1 as [|l ls Hl Hls IH]; intros H; [exact I|].
  destruct ls as [|l2 ls'].
  - exact Hl.
  - change (join [LF] (l :: l2 :: ls')) with (l ++ [LF] ++ join [LF] (l2 :: ls')).
    rewrite app_assoc. apply ends_clean_app.
    + apply join_nonempty; exact H.
    + apply IH; exact H.
Qed.

Lemma result_lines_ends_clean (st : state) :
  Forall ends_clean (result_lines_of st).
Proof.
  rewrite result_lines_of_rstrip. apply pop_empty_Forall.
  apply Forall_forall. intros l Hl. apply in_map_iff in Hl as (row & <- & _).
  apply rstrip_ends_clean.
Qed.

(** X2. The text never ends in whitespace: each of its lines is empty or
    ends with a character that is no whitespace, and so does the whole text
    (it never ends with a line feed or a blank). *)
Theorem final_text_has_no_trailing_whitespace (st : state) :
  Forall ends_clean (result_lines_of st) /\
  ends_clean (fst (get_final_text st)).
Proof.
  pose proof (result_lines_ends_clean st) as F.
  split; [exact F|].
  unfold get_final_text; cbn [fst].
  rewrite result_lines_of_rstrip in *.
  destruct (pop_empty_last (map rstrip (screen st))) as [E|E].
  - rewrite E. exact I.
  - apply join_ends_clean; assumption.
Qed.

(** X3. The text is empty exactly when the grid holds whitespace only (no
    row, or spaces and other characters that [rstrip] cuts). *)
Theorem final_text_empty_iff_blank (st : state) :
  fst (get_final_text st) = [] <->
  Forall (fun row => forallb is_space row = true) (screen st).
Proof.
  rewrite final_text_rstrip_rows. split.
  - intros H.
    assert (P : pop_empty (map rstrip (screen st)) = []).
    { destruct (pop_empty_last (map rstrip (screen st))) as [E|E]; [exact E|].
      apply (join_nonempty [LF]) in E. contradiction. }
    apply pop_empty_nil_iff in P.
    apply Forall_forall. intros row Hrow. apply rstrip_nil_iff.
    rewrite Forall_forall in P. symmetry. apply P. apply in_map. exact Hrow.
  - intros H.
    assert (P : pop_empty (map rstrip (screen st)) = []).
    { apply pop_empty_nil_iff. apply Forall_forall. intros l Hl.
      apply in_map_iff in Hl as (row & <- & Hrow).
      rewrite Forall_forall in H. symmetry. apply rstrip_nil_iff. apply H; exact Hrow. }
    rewrite P. reflexivity.
Qed.

(** The blank example grid gives the empty text. *)
Lemma final_text_empty_iff_blank_witness :
  Forall (fun row => forallb is_space row = true) (screen example_blank) /\
  fst (get_final_text example_blank) = [].
Proof.
  assert (H : Forall (fun row => forallb is_space row = true) (screen example_blank))
    by (repeat constructor).
  split; [exact H|].
  exact (proj2 (final_text_empty_iff_blank example_blank) H).
Defined.

(** ** Plain text on the grid *)

Lemma shows_blank (n : Z) : shows [] (py_repeat SP n).
Proof.
  exists (py_repeat SP n). split; [reflexivity|].
  apply py_repeat_Forall. reflexivity.
Qed.

Lemma shows_widen (l row : list char) (n : Z) :
  shows l row -> shows l (row ++ py_repeat SP n).
Proof.
  intros (pad & -> & Hpad). exists (pad ++ py_repeat SP n).
  split; [rewrite app_assoc; reflexivity|].
  apply Forall_app; split; [exact Hpad | apply py_repeat_Forall; reflexivity].
Qed.

Lemma Forall2_shows_blank (n : nat) (w : Z) :
  Forall2 shows (repeat [] n) (repeat (py_repeat SP w) n).
Proof.
  induction n as [|n IH]; cbn [repeat]; constructor; auto using shows_blank.
Qed.

(** After [ensure_screen_size] the grid shows the same lines, and empty
    lines for the rows it appended. *)
Lemma ensure_screen_size_shows (L : list str) (row col : Z) (st : state) :
  rows_show L st -> 0 <= row ->
  Forall2 shows (L ++ repeat [] (Z.to_nat (row + 1 - Z.of_nat (length L))))
          (screen (ensure_screen_size row col st)).
Proof.
  intros H Hrow.
  assert (G : Forall2 shows (L ++ repeat [] (Z.to_nat (row + 1 - Z.of_nat (length L))))
                      (grown row col st)).
  { unfold grown. destruct H as [H|[-> E]].
    - rewrite <- (Forall2_length H). apply Forall2_app; [exact H|].
      apply Forall2_shows_blank.
    - rewrite E. cbn [length app].
      replace (Z.to_nat (row + 1 - Z.of_nat 0)) with (S (Z.to_nat (row + 1 - Z.of_nat 1)))
        by lia.
      cbn [repeat]. constructor; [apply shows_blank | apply Forall2_shows_blank]. }
  rewrite ensure_screen_size_eq.
  destruct (max_cols st <=? col); cbn [screen with_max_cols with_screen]; [|exact G].
  clear H. induction G as [|l r L' R' Hlr HG IH]; cbn [map]; constructor; auto.
  apply shows_widen; exact Hlr.
Qed.

Lemma set_nth_app_length {A : Type} (a : list A) (x y : A) (b : list A) :
  set_nth (length a) y (a ++ x :: b) = a ++ y :: b.
Proof.
  induction a as [|h a IH]; [reflexivity|].
  cbn [length app set_nth]. rewrite IH. reflexivity.
Qed.

Lemma nth_error_app_length {A : Type} (a : list A) (x : A) (b : list A) :
  nth_error (a ++ x :: b) (length a) = Some x.
Proof.
  induction a as [|h a IH]; [reflexivity | exact IH].
Qed.

(** Writing [ch] at column [c] of a row that shows [cur]. *)
Lemma set_nth_shows (c : nat) (ch : char) (cur pad : list char) :
  (c <= length cur)%nat -> (c < length (cur ++ pad))%nat -> Forall (eq SP) pad ->
  shows (put c ch cur) (set_nth c ch (cur ++ pad)).
Proof.
  revert c; induction cur as [|y cur IH]; intros c Hc Hlen Hpad.
  - assert (c = O) by (cbn in Hc; lia). subst c.
    destruct pad as [|x pad]; [cbn in Hlen; lia|].
    exists pad. split; [reflexivity|]. inversion Hpad; assumption.
  - destruct c as [|c].
    + exists pad. split; [reflexivity | exact Hpad].
    + cbn [length app] in *.
      destruct (IH c ltac:(lia) ltac:(lia) Hpad) as (pad' & E & Hpad').
      exists pad'. split; [|exact Hpad'].
      cbn [set_nth]. rewrite E. reflexivity.
Qed.

Lemma put_length (c : nat) (ch : char) (l : str) :
  (c <= length l)%nat -> (S c <= length (put c ch l))%nat.
Proof.
  intros H. unfold put. rewrite length_app, length_firstn. cbn [length]. lia.
Qed.

Lemma skipn_S_tl {A : Type} (n : nat) (l : list A) :
  skipn (S n) l = skipn n (tl l).
Proof.
  destruct l; [destruct n; reflexivity | reflexivity].
Qed.

(** Putting a character right after the part [p] already written over
    [q]. *)
Lemma put_overwrite (p q : str) (ch : char) :
  put (length p) ch (p ++ q) = (p ++ [ch]) ++ tl q.
Proof.
  unfold put. rewrite firstn_app, firstn_all, Nat.sub_diag. cbn [firstn].
  rewrite app_nil_r, <- app_assoc. cbn [app]. do 2 f_equal.
  rewrite skipn_app, skipn_all2 by lia.
  replace (S (length p) - length p)%nat with 1%nat by lia.
  destruct q; reflexivity.
Qed.

(** A printable character on the last line of the grid. *)
Lemma insert_char_on_line (done : list str) (cur : str) (c : nat) (ch : char)
      (st : state) :
  on_line done cur c st -> 32 <= ord ch ->
  exists st', insert_char ch st = OK st' /\ on_line done (put c ch cur) (S c) st'.
Proof.
  intros (Hr & Hc & Hle & Hrect & Hshow) Hch.
  assert (Hwf : wf st) by (repeat split; try lia; exact Hrect).
  unfold insert_char.
  assert (E1 : N.eqb ch LF = false) by (apply N.eqb_neq; unfold ord, LF in *; lia).
  assert (E2 : N.eqb ch CR = false) by (apply N.eqb_neq; unfold ord, CR in *; lia).
  assert (E3 : N.eqb ch TAB = false) by (apply N.eqb_neq; unfold ord, TAB in *; lia).
  rewrite E1, E2, E3.
  replace (32 <=? ord ch) with true by (symmetry; apply Z.leb_le; exact Hch).
  set (st1 := ensure_screen_size (cursor_row st) (cursor_col st) st).
  pose proof (ensure_screen_size_cursor (cursor_row st) (cursor_col st) st) as [C1 C2].
  pose proof (ensure_screen_size_max_cols (cursor_row st) (cursor_col st) st) as [_ M].
  pose proof (ensure_screen_size_rows (cursor_row st) (cursor_col st) st) as [_ R].
  pose proof (ensure_screen_size_rect (cursor_row st) (cursor_col st) st Hrect) as Hrect1.
  pose proof (ensure_screen_size_shows _ (cursor_row st) (cursor_col st) st Hshow
                ltac:(lia)) as S1.
  fold st1 in C1, C2, M, R, Hrect1, S1.
  rewrite length_app in S1. cbn [length] in S1.
  replace (Z.to_nat (cursor_row st + 1 - Z.of_nat (length done + 1))) with O in S1 by lia.
  cbn [repeat] in S1. rewrite app_nil_r in S1.
  apply Forall2_app_inv_l in S1 as (rows & last_rows & Hrows & Hlast & Escr).
  inversion Hlast as [|? row ? rest (pad & Erow & Hpad) Hnil]; subst.
  inversion Hnil; subst.
  assert (Lr : length rows = length done) by (symmetry; eapply Forall2_length; eauto).
  destruct (write_cell_total ch st1 Hrect1) as (row0 & Hrow0 & W & Hlen); [lia | lia |].
  rewrite W. cbn [bind]. eexists; split; [reflexivity|].
  rewrite C1, C2, Hr, Hc, !Nat2Z.id in *.
  rewrite Escr, <- Lr, nth_error_app_length in Hrow0. injection Hrow0 as <-.
  unfold on_line.
  cbn [cursor_row cursor_col with_cursor_col with_screen screen].
  split; [congruence|]. split; [lia|].
  split; [apply put_length; exact Hle|].
  split.
  - unfold rect in *.
    cbn [screen max_cols with_cursor_col with_screen].
    apply set_nth_Forall; [exact Hrect1|].
    rewrite set_nth_length. rewrite Forall_forall in Hrect1. apply Hrect1.
    rewrite Escr. apply in_or_app; right; left; reflexivity.
  - left. cbn [screen with_cursor_col with_screen].
    rewrite Escr, <- Lr, set_nth_app_length.
    apply Forall2_app; [exact Hrows|]. constructor; [|constructor].
    apply set_nth_shows; auto.
Qed.

(** A line feed opens a new, empty last line. *)
Lemma insert_char_LF_on_line (done : list str) (cur : str) (c : nat) (st : state) :
  on_line done cur c st ->
  exists st', insert_char LF st = OK st' /\ on_line (done ++ [cur]) [] 0 st'.
Proof.
  intros (Hr & Hc & Hle & Hrect & Hshow).
  unfold insert_char. rewrite N.eqb_refl.
  eexists; split; [reflexivity|].
  set (st0 := with_cursor_col 0 (with_cursor_row (cursor_row st + 1) st)).
  assert (Hshow0 : rows_show (done ++ [cur]) st0) by exact Hshow.
  assert (Hrect0 : rect st0) by exact Hrect.
  pose proof (ensure_screen_size_cursor (cursor_row st0) (cursor_col st0) st0) as [C1 C2].
  pose proof (ensure_screen_size_rect (cursor_row st0) (cursor_col st0) st0 Hrect0) as R1.
  pose proof (ensure_screen_size_shows _ (cursor_row st0) (cursor_col st0) st0 Hshow0) as S1.
  cbn [cursor_row cursor_col st0 with_cursor_col with_cursor_row] in *.
  specialize (S1 ltac:(lia)).
  rewrite length_app in *. cbn [length] in *.
  replace (Z.to_nat (cursor_row st + 1 + 1 - Z.of_nat (length done + 1))) with 1%nat
    in S1 by lia.
  unfold on_line. rewrite C1, C2, length_app. cbn [length].
  split; [lia|]. split; [reflexivity|]. split; [lia|]. split; [exact R1|].
  left. exact S1.
Qed.

(** A carriage return goes back to the start of the last line. *)
Lemma insert_char_CR_on_line (done : list str) (cur : str) (c : nat) (st : state) :
  on_line done cur c st ->
  insert_char CR st = OK (with_cursor_col 0 st) /\
  on_line done cur 0 (with_cursor_col 0 st).
Proof.
  intros (Hr & Hc & Hle & Hrect & Hshow).
  split; [reflexivity|].
  unfold on_line. cbn [cursor_row cursor_col with_cursor_col].
  split; [exact Hr|]. split; [reflexivity|]. split; [lia|].
  split; [exact Hrect | exact Hshow].
Qed.

(** Printable characters written from column [length p] of a last line
    [p ++ q] replace [q] character by character. *)
Lemma insert_text_over (b : str) (done : list str) (p q : str) (st : state) :
  Forall (fun ch => 32 <= ord ch) b ->
  on_line done (p ++ q) (length p) st ->
  exists st',
    insert_text b st = OK st' /\
    on_line done ((p ++ b) ++ skipn (length b) q) (length (p ++ b)) st'.
Proof.
  intros Hb; revert p q st; induction Hb as [|ch b Hch Hb IH]; intros p q st H.
  - exists st. split; [reflexivity|]. rewrite app_nil_r. exact H.
  - destruct (insert_char_on_line done (p ++ q) (length p) ch st H Hch)
      as (st1 & E1 & H1).
    rewrite put_overwrite in H1.
    replace (S (length p)) with (length (p ++ [ch])) in H1
      by (rewrite length_app; cbn [length]; lia).
    destruct (IH (p ++ [ch]) (tl q) st1 H1) as (st' & E' & H').
    exists st'. cbn [insert_text]. rewrite E1. cbn [bind].
    split; [exact E'|].
    cbn [length]. rewrite skipn_S_tl.
    replace (p ++ ch :: b) with ((p ++ [ch]) ++ b)
      by (rewrite <- app_assoc; reflexivity).
    exact H'.
Qed.

Lemma rows_show_text (L : list str) (st : state) :
  rows_show L st ->
  fst (get_final_text st) = join [LF] (pop_empty (map rstrip L)).
Proof.
  intros H. rewrite final_text_rstrip_rows.
  destruct H as [H|[-> E]]; [|rewrite E; reflexivity].
  f_equal. f_equal.
  induction H as [|l row L' R' (pad & -> & Hpad) H IH]; [reflexivity|].
  cbn [map]. rewrite rstrip_app_spaces by exact Hpad. rewrite IH. reflexivity.
Qed.

Lemma init_state_on_line : on_line [] [] 0 init_state.
Proof.
  unfold on_line. cbn. repeat split; try lia; [constructor|].
  right. split; reflexivity.
Qed.

Lemma bind_ret {A : Type} (m : result A) : bind m (fun a => OK a) = m.
Proof. destruct m; reflexivity. Qed.

Lemma insert_text_app (a b : str) (st : state) :
  insert_text (a ++ b) st = (st' <- insert_text a st ;; insert_text b st').
Proof.
  revert st; induction a as [|ch a IH]; intros st; [reflexivity|].
  cbn [app insert_text]. rewrite bind_assoc. apply bind_ext. exact IH.
Qed.

Lemma process_loop_plain (text : str) (st : state) :
  Forall (fun ch => ch <> ESC) text ->
  process_loop (length text) text st = insert_text text st.
Proof.
  intros H. pose proof (process_loop_text text [] st H) as P.
  rewrite app_nil_r in P. rewrite P. apply bind_ret.
Qed.

(** X4. Text is written as it comes.  A text may be cut anywhere and its
    parts inserted one after the other; and for an input without escape
    marker the scanner does nothing but insert it: [process_content] is
    [insert_text] followed by [get_final_text]. *)
Theorem text_without_marker_is_inserted (a b : str) (st : state) :
  insert_text (a ++ b) st = (st' <- insert_text a st ;; insert_text b st') /\
  (Forall (fun ch => ch <> ESC) a ->
   process_content a st = (st' <- insert_text a st ;; OK (get_final_text st'))).
Proof.
  split; [apply insert_text_app|].
  intros H. unfold process_content. rewrite process_loop_plain by exact H.
  reflexivity.
Qed.

Lemma text_without_marker_is_inserted_witness :
  Forall (fun ch => ch <> ESC) (codes "ab") /\
  process_content (codes "ab") init_state
  = (st' <- insert_text (codes "ab") init_state ;; OK (get_final_text st')).
Proof.
  assert (H : Forall (fun ch => ch <> ESC) (codes "ab"))
    by (repeat constructor; discriminate).
  split; [exact H|].
  exact (proj2 (text_without_marker_is_inserted (codes "ab") [] init_state) H).
Defined.

Lemma printable_not_ESC (ch : char) : 32 <= ord ch \/ ch = LF -> ch <> ESC.
Proof.
  intros [H|H] E; subst ch; [vm_compute in H; apply H; reflexivity | discriminate].
Qed.

Lemma insert_text_lines (text : str) (done : list str) (cur : str) (st : state) :
  Forall (fun ch => 32 <= ord ch \/ ch = LF) text ->
  forallb (fun ch => negb (N.eqb ch LF)) cur = true ->
  on_line done cur (length cur) st ->
  exists st',
    insert_text text st = OK st' /\
    rows_show (done ++ split LF (cur ++ text)) st'.
Proof.
  intros Ht; revert done cur st; induction Ht as [|ch text Hch Ht IH];
    intros done cur st Hcur H.
  - exists st. split; [reflexivity|].
    rewrite app_nil_r, split_no_sep by exact Hcur. apply H.
  - cbn [insert_text].
    destruct (N.eq_dec ch LF) as [->|Hne].
    + destruct (insert_char_LF_on_line done cur (length cur) st H) as (st1 & -> & H1).
      cbn [bind].
      destruct (IH (done ++ [cur]) [] st1 eq_refl H1) as (st' & E' & H').
      exists st'. split; [exact E'|].
      rewrite split_app_sep by exact Hcur.
      rewrite <- app_assoc in H'. exact H'.
    + assert (Hp : 32 <= ord ch) by (destruct Hch; [assumption | contradiction]).
      destruct (insert_char_on_line done cur (length cur) ch st H Hp) as (st1 & -> & H1).
      cbn [bind].
      rewrite <- (app_nil_r cur) in H1 at 2. rewrite put_overwrite in H1.
      cbn [tl] in H1. rewrite app_nil_r in H1.
      replace (S (length cur)) with (length (cur ++ [ch])) in H1
        by (rewrite length_app; cbn [length]; lia).
      assert (Hcur' : forallb (fun c => negb (N.eqb c LF)) (cur ++ [ch]) = true).
      { rewrite forallb_app. apply andb_true_intro; split; [exact Hcur|].
        cbn [forallb]. apply N.eqb_neq in Hne. rewrite Hne. reflexivity. }
      destruct (IH done (cur ++ [ch]) st1 Hcur' H1) as (st' & E' & H').
      exists st'. split; [exact E'|].
      rewrite <- app_assoc in H'. exact H'.
Qed.

Lemma run_plain_text (text : str) :
  Forall (fun ch => 32 <= ord ch \/ ch = LF) text ->
  run text = OK (join [LF] (pop_empty (map rstrip (split LF text)))).
Proof.
  intros H. unfold run, process_content.
  rewrite process_loop_plain
    by (eapply Forall_impl; [|exact H]; intros ch; apply printable_not_ESC).
  destruct (insert_text_lines text [] [] init_state H eq_refl init_state_on_line)
    as (st' & -> & Hs).
  cbn [bind app] in *. rewrite (rows_show_text _ _ Hs). reflexivity.
Qed.

(** X5. Plain text comes out as it went in.  For an input of printable
    characters and line feeds only, the text returned is the input's lines
    with their trailing whitespace cut and the empty lines at the end
    dropped; nothing else changes and nothing fails. *)
Theorem plain_text_passes_through (text : str) :
  Forall (fun ch => 32 <= ord ch \/ ch = LF) text ->
  run text = OK (join [LF] (pop_empty (map rstrip (split LF text)))).
Proof.
  exact (run_plain_text text).
Qed.

(** Three lines, the second empty, blanks at the end of the first and two
    empty lines at the end. *)
Lemma plain_text_passes_through_witness :
  Forall (fun ch => 32 <= ord ch \/ ch = LF)
         (codes "ab  " ++ LF :: LF :: codes " c" ++ [LF; LF]) /\
  run (codes "ab  " ++ LF :: LF :: codes " c" ++ [LF; LF])
  = OK (codes "ab" ++ LF :: LF :: codes " c").
Proof.
  assert (H : Forall (fun ch => 32 <= ord ch \/ ch = LF)
                     (codes "ab  " ++ LF :: LF :: codes " c" ++ [LF; LF])).
  { repeat (apply Forall_cons;
            [first [right; reflexivity | left; vm_compute; discriminate]|]).
    apply Forall_nil. }
  split; [exact H|].
  exact (plain_text_passes_through _ H).
Defined.

Lemma join_pop_single (l : str) : join [LF] (pop_empty [l]) = l.
Proof. destruct l; reflexivity. Qed.

(** X6. A carriage return makes the text after it overwrite the text
    before it.  For printable [a] and [b], the input [a], carriage return,
    [b] gives [b] followed by what of [a] lies beyond the length of [b],
    with trailing whitespace cut. *)
Theorem carriage_return_overwrites (a b : str) :
  Forall (fun ch => 32 <= ord ch) a -> Forall (fun ch => 32 <= ord ch) b ->
  run (a ++ CR :: b) = OK (rstrip (b ++ skipn (length b) a)).
Proof.
  intros Ha Hb. unfold run, process_content.
  assert (N : forall s, Forall (fun ch => 32 <= ord ch) s ->
                        Forall (fun ch => ch <> ESC) s).
  { intros s Hs. eapply Forall_impl; [|exact Hs].
    intros ch Hch. apply printable_not_ESC. left; exact Hch. }
  rewrite process_loop_plain
    by (apply Forall_app; split; [apply N; exact Ha
                                 |constructor; [discriminate | apply N; exact Hb]]).
  rewrite insert_text_app.
  destruct (insert_text_over a [] [] [] init_state Ha init_state_on_line)
    as (st1 & -> & H1).
  cbn [bind app length] in *. rewrite skipn_nil, app_nil_r in H1.
  cbn [insert_text].
  destruct (insert_char_CR_on_line [] a (length a) st1 H1) as (-> & H2).
  cbn [bind].
  destruct (insert_text_over b [] [] a (with_cursor_col 0 st1) Hb H2)
    as (st3 & -> & H3).
  cbn [bind app] in *.
  destruct H3 as (_ & _ & _ & _ & Hs). cbn [app] in Hs.
  rewrite (rows_show_text _ _ Hs). cbn [map]. rewrite join_pop_single.
  reflexivity.
Qed.

(** A progress line of six characters overwritten by one of four. *)
Lemma carriage_return_overwrites_witness :
  Forall (fun ch => 32 <= ord ch) (codes "10% ..") /\
  Forall (fun ch => 32 <= ord ch) (codes "done") /\
  run (codes "10% .." ++ CR :: codes "done") = OK (codes "done..").
Proof.
  assert (Ha : Forall (fun ch => 32 <= ord ch) (codes "10% .."))
    by (repeat constructor; vm_compute; discriminate).
  assert (Hb : Forall (fun ch => 32 <= ord ch) (codes "done"))
    by (repeat constructor; vm_compute; discriminate).
  split; [exact Ha|]. split; [exact Hb|].
  exact (carriage_return_overwrites _ _ Ha Hb).
Defined.

Lemma split_join (lines : list str) :
  lines <> [] ->
  Forall (fun l => forallb (fun ch => negb (N.eqb ch LF)) l = true) lines ->
  split LF (join [LF] lines) = lines.
Proof.
  intros Hne H; revert Hne; induction H as [|l ls Hl Hls IH]; intros Hne;
    [contradiction Hne; reflexivity|].
  destruct ls as [|l2 ls'].
  - apply split_no_sep; exact Hl.
  - change (join [LF] (l :: l2 :: ls')) with (l ++ LF :: join [LF] (l2 :: ls')).
    rewrite split_app_sep by exact Hl. rewrite IH by discriminate. reflexivity.
Qed.

(** X7. Processing its own output changes nothing: when an input gives the
    text [out], the input [out] gives [out] again. *)
Theorem process_content_idempotent (content out : str) :
  run content = OK out -> run out = OK out.
Proof.
  intros H.
  assert (K : exists st, printable st /\ out = fst (get_final_text st)).
  { unfold run, process_content in H.
    apply bind_ok in H as ([out0 st1] & H & Hout). injection Hout as <-.
    apply bind_ok in H as (st' & H & Hg). injection Hg as <- <-.
    exists st'. split; [|reflexivity].
    eapply process_loop_printable; eauto. apply init_state_printable. }
  destruct K as (st & Hp & ->).
  pose proof (result_lines_printable st Hp) as P.
  pose proof (result_lines_ends_clean st) as C.
  unfold get_final_text; cbn [fst].
  set (lines := result_lines_of st) in *.
  assert (T : Forall (fun ch => 32 <= ord ch \/ ch = LF) (join [LF] lines)).
  { eapply Forall_impl; [|apply (join_LF_chars printable_char); exact P].
    intros ch [E|E]; [right; exact E | left; exact E]. }
  rewrite (run_plain_text _ T). f_equal. f_equal.
  assert (F : pop_empty lines = lines).
  { unfold lines. rewrite result_lines_of_rstrip. apply pop_empty_idempotent. }
  assert (R : map rstrip lines = lines).
  { clear - C. induction C as [|l ls Hl Hls IH]; [reflexivity|].
    cbn [map]. rewrite IH, (ends_clean_rstrip l Hl). reflexivity. }
  destruct lines as [|l ls] eqn:El; [reflexivity|].
  rewrite split_join; [rewrite R; exact F | discriminate |].
  eapply Forall_impl; [|exact P].
  intros l0 Hl0. apply forallb_forall. intros ch Hch.
  rewrite Forall_forall in Hl0. specialize (Hl0 ch Hch).
  apply negb_true_iff, N.eqb_neq. intros ->. vm_compute in Hl0. apply Hl0; reflexivity.
Qed.

(** The input of scenario 2 gives two spaces and B, and that text gives
    itself. *)
Lemma process_content_idempotent_witness :
  run (codes "A" ++ ESC :: codes "[2K B") = OK (codes "  B") /\
  run (codes "  B") = OK (codes "  B").
Proof.
  assert (H : run (codes "A" ++ ESC :: codes "[2K B") = OK (codes "  B"))
    by (vm_compute; reflexivity).
  split; [exact H|].
  exact (process_content_idempotent _ _ H).
Defined.

(** ** Sequences that change nothing *)

Lemma process_loop_matched (m sequence rest : str) (st : state) :
  m = ESC :: sequence -> re_match_ansi (m ++ rest) = Some m ->
  process_loop (length (m ++ rest)) (m ++ rest) st =
  (st' <- process_escape_sequence sequence st ;; process_loop (length rest) rest st').
Proof.
  intros -> Hm.
  rewrite (process_loop_sequence _ sequence) by exact Hm.
  change (S (length sequence)) with (length (ESC :: sequence)).
  rewrite skipn_match. reflexivity.
Qed.

Lemma re_match_ansi_charset (c : char) (rest : str) :
  is_charset c = true ->
  re_match_ansi (ESC :: 40%N :: c :: rest) = Some [ESC; 40%N; c].
Proof.
  intros H. unfold re_match_ansi, ESC. cbn. rewrite H. reflexivity.
Qed.

(** X8. A control sequence whose letter no command uses leaves no trace.
    For the marker, [[], an optional [?], digits and [;], and a letter other
    than H, f, A, B, C, D, G, K, J (the style letter m and the mode letters
    h and l among them), processing the sequence and the rest of the input
    is processing the rest: nothing is written, moved or raised. *)
Theorem unused_letter_sequence_is_transparent (params : str) (t : char)
        (rest : str) (st : state) :
  forallb is_param params = true -> is_letter t = true ->
  ~ In t (codes "HfABCDGKJ") ->
  process_content (ESC :: 91%N :: params ++ t :: rest) st = process_content rest st /\
  process_content (ESC :: 91%N :: 63%N :: params ++ t :: rest) st
  = process_content rest st.
Proof.
  intros Hp Ht Hn. unfold process_content. split.
  - pose proof (process_loop_matched (ESC :: 91%N :: params ++ [t])
                  (91%N :: params ++ [t]) rest st eq_refl) as P.
    cbn [app] in P. rewrite <- app_assoc in P. cbn [app] in P.
    assert (Q : process_loop (length (ESC :: 91%N :: params ++ t :: rest))
                             (ESC :: 91%N :: params ++ t :: rest) st
                = process_loop (length rest) rest st).
    { etransitivity; [apply P; apply re_match_ansi_csi; assumption|].
      rewrite csi_other_letter_ignored by exact Hn. reflexivity. }
    rewrite Q. reflexivity.
  - pose proof (process_loop_matched (ESC :: 91%N :: 63%N :: params ++ [t])
                  (91%N :: 63%N :: params ++ [t]) rest st eq_refl) as P.
    cbn [app] in P. rewrite <- app_assoc in P. cbn [app] in P.
    assert (Q : process_loop (length (ESC :: 91%N :: 63%N :: params ++ t :: rest))
                             (ESC :: 91%N :: 63%N :: params ++ t :: rest) st
                = process_loop (length rest) rest st).
    { etransitivity; [apply P; apply re_match_ansi_private; assumption|].
      rewrite private_sequence_ignored by exact Hn. reflexivity. }
    rewrite Q. reflexivity.
Qed.

(** A colour sequence before "ok", and hiding the cursor before "ok". *)
Lemma unused_letter_sequence_is_transparent_witness :
  forallb is_param (codes "1;31") = true /\ is_letter (chr "m") = true /\
  ~ In (chr "m") (codes "HfABCDGKJ") /\
  process_content (ESC :: codes "[1;31mok") init_state
  = process_content (codes "ok") init_state.
Proof.
  assert (H1 : forallb is_param (codes "1;31") = true) by reflexivity.
  assert (H2 : is_letter (chr "m") = true) by reflexivity.
  assert (H3 : ~ In (chr "m") (codes "HfABCDGKJ")).
  { cbn. intros H. repeat (destruct H as [H|H]; [discriminate|]). exact H. }
  split; [exact H1|]. split; [exact H2|]. split; [exact H3|].
  exact (proj1 (unused_letter_sequence_is_transparent
                  (codes "1;31") (chr "m") (codes "ok") init_state H1 H2 H3)).
Defined.

(** X9. A character-set designation leaves no trace: the marker, [(] and
    one of A, B, 0 are consumed, and the rest of the input is processed from
    the same state. *)
Theorem charset_designation_is_transparent (c : char) (rest : str) (st : state) :
  is_charset c = true ->
  process_content (ESC :: 40%N :: c :: rest) st = process_content rest st.
Proof.
  intros H. unfold process_content.
  pose proof (process_loop_matched [ESC; 40%N; c] [40%N; c] rest st eq_refl) as P.
  cbn [app] in P.
  assert (Q : process_loop (length (ESC :: 40%N :: c :: rest))
                           (ESC :: 40%N :: c :: rest) st
              = process_loop (length rest) rest st).
  { etransitivity; [apply P; apply re_match_ansi_charset; exact H|]. reflexivity. }
  rewrite Q. reflexivity.
Qed.

Lemma charset_designation_is_transparent_witness :
  is_charset (chr "B") = true /\
  process_content (ESC :: codes "(Bok") init_state
  = process_content (codes "ok") init_state.
Proof.
  assert (H : is_charset (chr "B") = true) by reflexivity.
  split; [exact H|].
  exact (charset_designation_is_transparent (chr "B") (codes "ok") init_state H).
Defined.

(** X10. Erase in screen does something for mode 2 only.  With no
    parameter (mode 0) or a number other than 2, the sequence closed by J
    is consumed and the rest of the input is processed from the same state:
    nothing is erased. *)
Theorem erase_screen_other_modes_do_nothing (ds : str) (n : Z) (rest : str)
        (st : state) :
  forallb is_digit ds = true -> int_or ds 0 = OK n -> n <> 2 ->
  process_escape_sequence (91%N :: ds ++ [chr "J"]) st = OK st /\
  process_content (ESC :: 91%N :: ds ++ chr "J" :: rest) st = process_content rest st.
Proof.
  intros Hd Hn Hne.
  assert (E : process_escape_sequence (91%N :: ds ++ [chr "J"]) st = OK st).
  { unfold process_escape_sequence. rewrite !endswith_snoc, init_snoc. cbn.
    rewrite Hn. cbn [bind]. unfold clear_screen.
    replace (n =? 2) with false by (symmetry; apply Z.eqb_neq; exact Hne).
    reflexivity. }
  split; [exact E|].
  unfold process_content.
  pose proof (process_loop_matched (ESC :: 91%N :: ds ++ [chr "J"])
                (91%N :: ds ++ [chr "J"]) rest st eq_refl) as P.
  cbn [app] in P. rewrite <- app_assoc in P. cbn [app] in P.
  assert (Q : process_loop (length (ESC :: 91%N :: ds ++ chr "J" :: rest))
                           (ESC :: 91%N :: ds ++ chr "J" :: rest) st
              = process_loop (length rest) rest st).
  { etransitivity.
    - apply P. apply re_match_ansi_csi; [|reflexivity].
      apply forallb_forall. intros x Hx. rewrite forallb_forall in Hd.
      unfold is_param. rewrite (Hd x Hx). reflexivity.
    - rewrite E. reflexivity. }
  rewrite Q. reflexivity.
Qed.

(** Mode 1 before "ok". *)
Lemma erase_screen_other_modes_do_nothing_witness :
  forallb is_digit (codes "1") = true /\ int_or (codes "1") 0 = OK 1 /\ 1 <> 2 /\
  process_content (ESC :: codes "[1Jok") init_state
  = process_content (codes "ok") init_state.
Proof.
  assert (H : 1 <> 2) by discriminate.
  split; [reflexivity|]. split; [reflexivity|]. split; [exact H|].
  exact (proj2 (erase_screen_other_modes_do_nothing
                  (codes "1") 1 (codes "ok") init_state eq_refl eq_refl H)).
Defined.

(** ** The grammar of the scanner *)

Lemma digit_is_param (run : str) :
  forallb is_digit run = true -> forallb is_param run = true.
Proof.
  intros H. apply forallb_forall. intros x Hx. rewrite forallb_forall in H.
  unfold is_param. rewrite (H x Hx). reflexivity.
Qed.

Lemma hl_is_letter (c : char) : is_hl c = true -> is_letter c = true.
Proof.
  unfold is_hl. intros H. apply orb_prop in H as [H|H];
    apply N.eqb_eq in H; subst c; reflexivity.
Qed.

(** When the second alternative fails, so does the third. *)
Lemma match_run_hl_none (t : str) :
  match_run is_param is_letter t = None -> match_run is_digit is_hl t = None.
Proof.
  intros H. destruct (match_run is_digit is_hl t) as [m|] eqn:E; [|reflexivity].
  apply match_run_spec in E as (run & c & rest & -> & -> & Hr & Hc).
  rewrite match_run_complete in H;
    [discriminate | apply digit_is_param; exact Hr
     | apply letter_not_param, hl_is_letter; exact Hc | apply hl_is_letter; exact Hc].
Qed.

Lemma re_match_ansi_token (s m : str) :
  re_match_ansi s = Some m -> token m /\ exists rest, s = m ++ rest.
Proof.
  unfold re_match_ansi.
  destruct s as [|c0 s]; [discriminate|].
  destruct (N.eq_dec c0 27) as [->|N0].
  2:{ destruct c0 as [|q]; [discriminate|].
      repeat (destruct q as [q|q|]; try discriminate). congruence. }
  destruct s as [|c1 s]; [discriminate|].
  destruct (N.eq_dec c1 91) as [->|N1].
  - destruct (match_run is_param is_letter s) as [m1|] eqn:E1; simpl.
    { intros H; injection H as <-.
      apply match_run_spec in E1 as (run & c & rest & -> & -> & Hr & Hc).
      split.
      - left. exists run, c. auto.
      - exists rest. simpl. rewrite <- app_assoc. reflexivity. }
    destruct s as [|c2 s]; [discriminate|].
    destruct (N.eq_dec c2 63) as [->|N2].
    + destruct (match_run is_param is_letter s) as [m2|] eqn:E2; simpl.
      { intros H; injection H as <-.
        apply match_run_spec in E2 as (run & c & rest & -> & -> & Hr & Hc).
        split.
        - left. exists run, c. auto.
        - exists rest. simpl. rewrite <- app_assoc. reflexivity. }
      rewrite (match_run_hl_none s E2). simpl. discriminate.
    + destruct c2 as [|q]; [discriminate|].
      repeat (destruct q as [q|q|]; try discriminate). congruence.
  - assert (E : re_match_ansi (27%N :: c1 :: s) =
                match s with
                | c :: _ => if N.eqb c1 40 && is_charset c then Some [ESC; 40%N; c] else None
                | [] => None
                end).
    { unfold re_match_ansi.
      destruct c1 as [|q]; [destruct s; reflexivity|].
      repeat (destruct q as [q|q|]; try (destruct s; reflexivity)).
      congruence. }
    unfold re_match_ansi in E. rewrite E.
    destruct s as [|c s]; [discriminate|].
    destruct (N.eqb c1 40) eqn:E40; simpl; [|discriminate].
    apply N.eqb_eq in E40; subst c1.
    destruct (is_charset c) eqn:Ec; [|discriminate].
    intros H; injection H as <-.
    split; [right; exists c; auto | exists s; reflexivity].
Qed.

(** X11. The scanner recognises the grammar and nothing else.  A text [m]
    is the match at the start of [s] exactly when [m] is a text of the
    grammar (the marker, [[], an optional [?], digits and [;], one ASCII
    letter; or the marker, [(] and one of A, B, 0) and [s] begins with [m].
    So a match is at least three characters long, and at most one text of
    the grammar begins a given input. *)
Theorem re_match_ansi_is_the_grammar (s m : str) :
  re_match_ansi s = Some m <-> (token m /\ exists rest, s = m ++ rest).
Proof.
  split; [apply re_match_ansi_token|].
  intros ([(params & t & Hp & Ht & [->| ->])|(c & Hc & ->)] & rest & ->).
  - cbn [app]. rewrite <- app_assoc. apply re_match_ansi_csi; assumption.
  - cbn [app]. rewrite <- app_assoc. apply re_match_ansi_private; assumption.
  - apply re_match_ansi_charset; exact Hc.
Qed.

(** The match of [ESC[12;5Hxyz] is [ESC[12;5H]. *)
Lemma re_match_ansi_is_the_grammar_witness :
  token (ESC :: codes "[12;5H") /\
  re_match_ansi (ESC :: codes "[12;5Hxyz") = Some (ESC :: codes "[12;5H").
Proof.
  assert (T : token (ESC :: codes "[12;5H")).
  { left. exists (codes "12;5"), (chr "H"). repeat split; auto. }
  split; [exact T|].
  apply (proj2 (re_match_ansi_is_the_grammar
                  (ESC :: codes "[12;5Hxyz") (ESC :: codes "[12;5H"))).
  split; [exact T | exists (codes "xyz"); reflexivity].
Defined.

(** X12. The third alternative of [ansi_pattern] never decides a match:
    whatever it matches, the second alternative, tried before it, matches
    too.  The pattern without it recognises the same text on every input. *)
Theorem third_alternative_is_redundant (s : str) :
  re_match_ansi s = re_match_ansi_without_third s.
Proof.
  unfold re_match_ansi, re_match_ansi_without_third.
  destruct s as [|c0 s]; [reflexivity|].
  destruct (N.eq_dec c0 27) as [->|N0].
  2:{ destruct c0 as [|q]; [reflexivity|].
      repeat (destruct q as [q|q|]; try reflexivity). congruence. }
  destruct s as [|c1 s]; [reflexivity|].
  destruct (N.eq_dec c1 91) as [->|N1].
  - destruct (match_run is_param is_letter s) as [m1|] eqn:E1; [reflexivity|].
    destruct s as [|c2 s]; [reflexivity|].
    destruct (N.eq_dec c2 63) as [->|N2].
    + destruct (match_run is_param is_letter s) as [m2|] eqn:E2; [reflexivity|].
      rewrite (match_run_hl_none s E2). reflexivity.
    + destruct c2 as [|q]; [reflexivity|].
      repeat (destruct q as [q|q|]; try reflexivity). congruence.
  - destruct c1 as [|q]; [destruct s; reflexivity|].
    repeat (destruct q as [q|q|]; try (destruct s; reflexivity)).
    congruence.
Qed.

(** X13. The loop of [process_content] stops: every iteration consumes at
    least one character, so as many iterations as the input has characters
    are enough. With that many or more the loop ends with a result of the
    program, the same whatever the surplus. *)
Theorem process_loop_terminates (fuel : nat) (content : str) (st : state) :
  (length content <= fuel)%nat ->
  process_loop fuel content st = process_loop (length content) content st /\
  process_loop fuel content st <> Error OutOfFuel.
Proof.
  intros H. split.
  - apply (process_loop_fuel (length content)); auto.
  - apply process_loop_never_out_of_fuel; exact H.
Qed.

Lemma process_loop_terminates_witness :
  (length (ESC :: codes "[2Jab") <= 9)%nat /\
  process_loop 9 (ESC :: codes "[2Jab") init_state
  = process_loop 6 (ESC :: codes "[2Jab") init_state.
Proof.
  assert (H : (length (ESC :: codes "[2Jab") <= 9)%nat) by (cbn; lia).
  split; [exact H|].
  exact (proj1 (process_loop_terminates 9 (ESC :: codes "[2Jab") init_state H)).
Defined.

(** ** Erase in line *)

Lemma nth_error_set_nth (n k : nat) (x : char) (l : list char) :
  nth_error (set_nth n x l) k =
  if Nat.eqb n k then option_map (fun _ => x) (nth_error l k) else nth_error l k.
Proof.
  destruct (Nat.eqb n k) eqn:E.
  - apply Nat.eqb_eq in E; subst k.
    destruct (nth_error l n) as [y|] eqn:El; cbn [option_map].
    + apply nth_error_set_nth_same. apply nth_error_Some. congruence.
    + apply nth_error_None. rewrite set_nth_length. apply nth_error_None. exact El.
  - apply Nat.eqb_neq in E. apply nth_error_set_nth_other; exact E.
Qed.

Lemma nth_error_set_nth_row (n k : nat) (x : list char) (l : list (list char)) :
  nth_error (set_nth n x l) k =
  if Nat.eqb n k then option_map (fun _ => x) (nth_error l k) else nth_error l k.
Proof.
  destruct (Nat.eqb n k) eqn:E.
  - apply Nat.eqb_eq in E; subst k.
    destruct (nth_error l n) as [y|] eqn:El; cbn [option_map].
    + apply nth_error_set_nth_same. apply nth_error_Some. congruence.
    + apply nth_error_None. rewrite set_nth_length. apply nth_error_None. exact El.
  - apply Nat.eqb_neq in E. apply nth_error_set_nth_other; exact E.
Qed.

(** The loop that blanks the cells of the indices [idxs], all inside the
    row: it blanks those and no other. *)
Lemma blank_cells_nth (idxs : list Z) (row : list char) :
  Forall (fun i => 0 <= i < Z.of_nat (length row)) idxs ->
  exists row',
    blank_cells idxs row = OK row' /\
    forall k, nth_error row' k =
              if existsb (Z.eqb (Z.of_nat k)) idxs
              then option_map (fun _ => SP) (nth_error row k)
              else nth_error row k.
Proof.
  revert row; induction idxs as [|i idxs IH]; intros row H.
  - exists row. split; [reflexivity | intros k; reflexivity].
  - inversion H as [|? ? Hi Hrest]; subst.
    cbn [blank_cells]. rewrite py_setitem_nonneg by exact Hi. cbn [bind].
    destruct (IH (set_nth (Z.to_nat i) SP row)) as (row' & E & K).
    { rewrite set_nth_length. exact Hrest. }
    exists row'. split; [exact E|].
    intros k. rewrite K, nth_error_set_nth. cbn [existsb].
    destruct (Z.of_nat k =? i) eqn:Ek.
    + apply Z.eqb_eq in Ek.
      replace (Nat.eqb (Z.to_nat i) k) with true
        by (symmetry; apply Nat.eqb_eq; lia).
      cbn [orb]. destruct (existsb _ idxs); destruct (nth_error row k); reflexivity.
    + apply Z.eqb_neq in Ek.
      replace (Nat.eqb (Z.to_nat i) k) with false
        by (symmetry; apply Nat.eqb_neq; lia).
      reflexivity.
Qed.

Lemma existsb_py_range (k a b : Z) :
  existsb (Z.eqb k) (py_range a b) = (a <=? k) && (k <? b).
Proof.
  destruct ((a <=? k) && (k <? b)) eqn:E.
  - apply andb_prop in E as [E1 E2]. apply Z.leb_le in E1. apply Z.ltb_lt in E2.
    apply existsb_exists. exists k. split; [|apply Z.eqb_refl].
    unfold py_range. apply in_map_iff. exists (Z.to_nat (k - a)).
    split; [lia|]. apply in_seq. lia.
  - destruct (existsb (Z.eqb k) (py_range a b)) eqn:E2; [|reflexivity].
    apply existsb_exists in E2 as (x & Hx & Ex). apply Z.eqb_eq in Ex; subst x.
    pose proof (py_range_bounds a b) as B. rewrite Forall_forall in B.
    specialize (B k Hx).
    apply andb_false_iff in E as [E|E];
      [apply Z.leb_gt in E | apply Z.ltb_ge in E]; lia.
Qed.

Lemma cell_with_screen_set_nth (st : state) (n : nat) (row row' : list char)
      (r c : nat) :
  nth_error (screen st) n = Some row ->
  cell (with_screen (set_nth n row' (screen st)) st) r c =
  if Nat.eqb n r then nth_error row' c else cell st r c.
Proof.
  intros Hn. unfold cell. cbn [screen with_screen].
  rewrite nth_error_set_nth_row.
  destruct (Nat.eqb n r) eqn:E; [|reflexivity].
  apply Nat.eqb_eq in E; subst r. rewrite Hn. reflexivity.
Qed.

(** X14. What erase in line erases.  With the cursor at non-negative
    coordinates [clear_line] never fails and keeps the cursor and the size
    of the grid; in the row of the cursor it puts a space in the cells from
    the cursor's column on (mode 0), up to and including the cursor's column
    (mode 1), or everywhere (mode 2); it changes no other cell, adds none,
    and does nothing for any other mode or when the grid has no row at the
    cursor. *)
Theorem clear_line_blanks_its_range (mode : Z) (st : state) :
  cursor_ok st ->
  exists st',
    clear_line mode st = OK st' /\
    cursor_row st' = cursor_row st /\ cursor_col st' = cursor_col st /\
    max_cols st' = max_cols st /\ length (screen st') = length (screen st) /\
    forall r c,
      cell st' r c =
      if (Z.of_nat r =? cursor_row st) && erased mode (cursor_col st) (Z.of_nat c)
      then option_map (fun _ => SP) (cell st r c)
      else cell st r c.
Proof.
  intros [Hr Hc].
  assert (Same : forall r c (b : bool),
             (b = true -> cell st r c = None \/ False) \/ b = false ->
             cell st r c = if b then option_map (fun _ => SP) (cell st r c)
                           else cell st r c).
  { intros r c b [H| ->]; [|reflexivity].
    destruct b; [|reflexivity]. destruct (H eq_refl) as [-> | []]. reflexivity. }
  unfold clear_line.
  destruct (cursor_row st <? Z.of_nat (length (screen st))) eqn:E.
  2:{ exists st. repeat (split; [reflexivity|]). intros r c.
      apply Same. left. intros Hb. left.
      apply andb_prop in Hb as [Hb _]. apply Z.eqb_eq in Hb.
      apply Z.ltb_ge in E. unfold cell.
      replace (nth_error (screen st) r) with (@None (list char)); [reflexivity|].
      symmetry. apply nth_error_None. lia. }
  apply Z.ltb_lt in E.
  rewrite py_index_nonneg by lia. cbn [bind].
  destruct (py_getitem_nonneg (screen st) (cursor_row st)) as (row & -> & Hn);
    [lia|]. cbn [bind].
  assert (K : forall a b,
             0 <= a -> b <= Z.of_nat (length row) ->
             (forall c, (a <=? Z.of_nat c) && (Z.of_nat c <? b) = true ->
                        erased mode (cursor_col st) (Z.of_nat c) = true) ->
             (forall c, (c < length row)%nat ->
                        erased mode (cursor_col st) (Z.of_nat c) = true ->
                        (a <=? Z.of_nat c) && (Z.of_nat c <? b) = true) ->
             exists st',
               (row' <- blank_cells (py_range a b) row ;;
                OK (with_screen (set_nth (Z.to_nat (cursor_row st)) row' (screen st)) st))
               = OK st' /\
               cursor_row st' = cursor_row st /\ cursor_col st' = cursor_col st /\
               max_cols st' = max_cols st /\ length (screen st') = length (screen st) /\
               forall r c,
                 cell st' r c =
                 if (Z.of_nat r =? cursor_row st)
                    && erased mode (cursor_col st) (Z.of_nat c)
                 then option_map (fun _ => SP) (cell st r c)
                 else cell st r c).
  { intros a b Ha Hb Hin Hout.
    destruct (blank_cells_nth (py_range a b) row) as (row' & -> & Hrow').
    { eapply Forall_impl; [|apply py_range_bounds]. cbn beta. intros; lia. }
    cbn [bind]. eexists; split; [reflexivity|].
    cbn [cursor_row cursor_col max_cols screen with_screen].
    rewrite set_nth_length. repeat (split; [reflexivity|]).
    intros r c. rewrite (cell_with_screen_set_nth st _ row row' r c Hn).
    destruct (Nat.eqb (Z.to_nat (cursor_row st)) r) eqn:Er.
    - apply Nat.eqb_eq in Er; subst r.
      replace (Z.of_nat (Z.to_nat (cursor_row st)) =? cursor_row st) with true
        by (symmetry; apply Z.eqb_eq; lia).
      cbn [andb]. unfold cell. rewrite Hn, Hrow', existsb_py_range.
      destruct (nth_error row c) as [x|] eqn:Ec.
      + assert (Lc : (c < length row)%nat) by (apply nth_error_Some; congruence).
        destruct ((a <=? Z.of_nat c) && (Z.of_nat c <? b)) eqn:Ein.
        * rewrite (Hin c Ein). reflexivity.
        * destruct (erased mode (cursor_col st) (Z.of_nat c)) eqn:Ee; [|reflexivity].
          rewrite (Hout c Lc Ee) in Ein. discriminate.
      + destruct ((a <=? Z.of_nat c) && (Z.of_nat c <? b));
          destruct (erased mode (cursor_col st) (Z.of_nat c)); reflexivity.
    - replace (Z.of_nat r =? cursor_row st) with false
        by (symmetry; apply Z.eqb_neq; apply Nat.eqb_neq in Er; lia).
      reflexivity. }
  destruct (mode =? 0) eqn:M0.
  { apply (K (cursor_col st) (Z.of_nat (length row))).
    - lia.
    - lia.
    - intros c Hb. unfold erased. rewrite M0.
      apply andb_prop in Hb as [Hb _]. exact Hb.
    - intros c Lc He. unfold erased in He. rewrite M0 in He.
      apply andb_true_intro; split; [exact He | apply Z.ltb_lt; lia]. }
  destruct (mode =? 1) eqn:M1.
  { apply (K 0 (Z.min (cursor_col st + 1) (Z.of_nat (length row)))).
    - lia.
    - lia.
    - intros c Hb. unfold erased. rewrite M0, M1.
      apply andb_prop in Hb as [_ Hb]. apply Z.ltb_lt in Hb.
      apply Z.leb_le. lia.
    - intros c Lc He. unfold erased in He. rewrite M0, M1 in He.
      apply Z.leb_le in He.
      apply andb_true_intro; split; [apply Z.leb_le | apply Z.ltb_lt]; lia. }
  destruct (mode =? 2) eqn:M2.
  { apply (K 0 (Z.of_nat (length row))).
    - lia.
    - lia.
    - intros c Hb. unfold erased. rewrite M0, M1, M2. reflexivity.
    - intros c Lc _.
      apply andb_true_intro; split; [apply Z.leb_le | apply Z.ltb_lt]; lia. }
  exists st. repeat (split; [reflexivity|]). intros r c.
  unfold erased. rewrite M0, M1, M2, andb_false_r. reflexivity.
Qed.

(** Mode 1 on the example grid, whose cursor is at column 2 after "ab":
    both cells become spaces. *)
Lemma clear_line_blanks_its_range_witness :
  cursor_ok example_grid /\
  exists st',
    clear_line 1 example_grid = OK st' /\
    cell st' 0 0 = Some SP /\ cell st' 0 1 = Some SP /\ cell st' 0 2 = None.
Proof.
  assert (C : cursor_ok example_grid) by (split; vm_compute; discriminate).
  split; [exact C|].
  destruct (clear_line_blanks_its_range 1 example_grid C)
    as (st' & H & _ & _ & _ & _ & K).
  exists st'. split; [exact H|]. rewrite !K. repeat split; reflexivity.
Defined.

(** ** Tabs, sizes and movements *)

Lemma cell_with_cursor_col (c0 : Z) (st : state) (r c : nat) :
  cell (with_cursor_col c0 st) r c = cell st r c.
Proof. reflexivity. Qed.

(** X15. A tab goes to the next tab stop and writes nothing.  From any
    column the cursor goes to the next multiple of 8 beyond it, one to eight
    columns further, on the same row; the grid is grown to hold that
    position, every cell keeps its character and new cells are spaces. *)
Theorem tab_moves_to_next_stop (st : state) :
  exists st',
    insert_char TAB st = OK st' /\
    cursor_row st' = cursor_row st /\
    cursor_col st < cursor_col st' <= cursor_col st + 8 /\
    cursor_col st' mod 8 = 0 /\
    cursor_col st' < max_cols st' /\
    (forall r c ch, cell st r c = Some ch -> cell st' r c = Some ch) /\
    (forall r c ch, cell st' r c = Some ch ->
                    cell st r c = Some ch \/ (cell st r c = None /\ ch = SP)).
Proof.
  eexists. split; [reflexivity|].
  set (st1 := with_cursor_col ((cursor_col st / 8 + 1) * 8) st).
  cbn [cursor_row cursor_col st1 with_cursor_col].
  change (ensure_screen_size (cursor_row st) ((cursor_col st / 8 + 1) * 8)
            {| screen := screen st; cursor_row := cursor_row st;
               cursor_col := (cursor_col st / 8 + 1) * 8;
               max_cols := max_cols st; max_rows := max_rows st |})
    with (ensure_screen_size (cursor_row st) ((cursor_col st / 8 + 1) * 8) st1).
  destruct (ensure_screen_size_cursor (cursor_row st) ((cursor_col st / 8 + 1) * 8) st1)
    as [C1 C2].
  rewrite C1, C2. cbn [cursor_row cursor_col st1 with_cursor_col].
  pose proof (Z.div_mod (cursor_col st) 8 ltac:(lia)) as D.
  pose proof (Z.mod_pos_bound (cursor_col st) 8 ltac:(lia)) as B.
  split; [reflexivity|]. split; [lia|].
  split; [apply Z.mod_mul; lia|].
  split; [apply (ensure_screen_size_max_cols (cursor_row st) _ st1)|].
  split.
  - intros r c ch H. apply ensure_screen_size_keeps. exact H.
  - intros r c ch H. apply ensure_screen_size_adds_spaces in H. exact H.
Qed.

(** X16. Asking for a position the grid already holds changes nothing, so
    asking twice is asking once. *)
Theorem ensure_screen_size_inside_is_identity (row col : Z) (st : state) :
  (row < Z.of_nat (length (screen st)) -> col < max_cols st ->
   ensure_screen_size row col st = st) /\
  ensure_screen_size row col (ensure_screen_size row col st)
  = ensure_screen_size row col st.
Proof.
  assert (I : forall s, row < Z.of_nat (length (screen s)) -> col < max_cols s ->
                        ensure_screen_size row col s = s).
  { intros s Hr Hc. rewrite ensure_screen_size_eq. unfold grown.
    replace (Z.to_nat (row + 1 - Z.of_nat (length (screen s)))) with O by lia.
    cbn [repeat]. rewrite app_nil_r.
    replace (max_cols s <=? col) with false by (symmetry; apply Z.leb_gt; exact Hc).
    destruct s; reflexivity. }
  split; [apply I|].
  apply I; [apply ensure_screen_size_rows | apply ensure_screen_size_max_cols].
Qed.

Lemma ensure_screen_size_inside_is_identity_witness :
  0 < Z.of_nat (length (screen example_grid)) /\ 1 < max_cols example_grid /\
  ensure_screen_size 0 1 example_grid = example_grid.
Proof.
  assert (H1 : 0 < Z.of_nat (length (screen example_grid))) by (cbn; lia).
  assert (H2 : 1 < max_cols example_grid) by (cbn; lia).
  split; [exact H1|]. split; [exact H2|].
  exact (proj1 (ensure_screen_size_inside_is_identity 0 1 example_grid) H1 H2).
Defined.

(** The movement sequences with a digit run [ds] that denotes [n] (1 when
    the run is empty) call the movement of their letter with [n]. *)
Lemma movement_sequence_calls (ds : str) (n : Z) (st : state) :
  int_or ds 1 = OK n ->
  process_escape_sequence (91%N :: ds ++ [chr "A"]) st = OK (move_cursor_up n st) /\
  process_escape_sequence (91%N :: ds ++ [chr "B"]) st = OK (move_cursor_down n st) /\
  process_escape_sequence (91%N :: ds ++ [chr "C"]) st = OK (move_cursor_forward n st) /\
  process_escape_sequence (91%N :: ds ++ [chr "D"]) st = OK (move_cursor_backward n st) /\
  process_escape_sequence (91%N :: ds ++ [chr "G"]) st
  = OK (ensure_screen_size (cursor_row st) (Z.max 0 (n - 1))
          (with_cursor_col (Z.max 0 (n - 1)) st)).
Proof.
  intros H. unfold process_escape_sequence.
  rewrite !endswith_snoc, !init_snoc. cbn. rewrite H. cbn [bind].
  repeat split; reflexivity.
Qed.

(** X17. The movement sequences move by the count they carry, zero
    included.  For a run of digits denoting [n] (1 when there is none):
    A takes the row to [max 0 (row - n)] and D the column to
    [max 0 (col - n)], changing nothing else; B adds [n] to the row, C adds
    [n] to the column and G sets the column to [max 0 (n - 1)], leaving the
    other coordinate and every character of the grid as they are. *)
Theorem movement_sequences_move_by_count (ds : str) (n : Z) (st : state) :
  forallb is_digit ds = true -> int_or ds 1 = OK n ->
  (exists st', process_escape_sequence (91%N :: ds ++ [chr "A"]) st = OK st' /\
               cursor_row st' = Z.max 0 (cursor_row st - n) /\
               cursor_col st' = cursor_col st /\ screen st' = screen st) /\
  (exists st', process_escape_sequence (91%N :: ds ++ [chr "D"]) st = OK st' /\
               cursor_col st' = Z.max 0 (cursor_col st - n) /\
               cursor_row st' = cursor_row st /\ screen st' = screen st) /\
  (exists st', process_escape_sequence (91%N :: ds ++ [chr "B"]) st = OK st' /\
               cursor_row st' = cursor_row st + n /\
               cursor_col st' = cursor_col st /\
               forall r c ch, cell st r c = Some ch -> cell st' r c = Some ch) /\
  (exists st', process_escape_sequence (91%N :: ds ++ [chr "C"]) st = OK st' /\
               cursor_col st' = cursor_col st + n /\
               cursor_row st' = cursor_row st /\
               forall r c ch, cell st r c = Some ch -> cell st' r c = Some ch) /\
  (exists st', process_escape_sequence (91%N :: ds ++ [chr "G"]) st = OK st' /\
               cursor_col st' = Z.max 0 (n - 1) /\
               cursor_row st' = cursor_row st /\
               forall r c ch, cell st r c = Some ch -> cell st' r c = Some ch).
Proof.
  intros _ H.
  destruct (movement_sequence_calls ds n st H) as (EA & EB & EC & ED & EG).
  split; [eexists; split; [exact EA|]; repeat split|].
  split; [eexists; split; [exact ED|]; repeat split|].
  split; [eexists; split; [exact EB|]|].
  { unfold move_cursor_down.
    set (st1 := with_cursor_row (cursor_row st + n) st).
    destruct (ensure_screen_size_cursor (cursor_row st1) (cursor_col st1) st1) as [-> ->].
    repeat split. intros r c ch Hc.
    apply (ensure_screen_size_keeps (cursor_row st1) (cursor_col st1) st1). exact Hc. }
  split; [eexists; split; [exact EC|]|].
  { unfold move_cursor_forward.
    set (st1 := with_cursor_col (cursor_col st + n) st).
    destruct (ensure_screen_size_cursor (cursor_row st1) (cursor_col st1) st1) as [-> ->].
    repeat split. intros r c ch Hc.
    apply (ensure_screen_size_keeps (cursor_row st1) (cursor_col st1) st1). exact Hc. }
  eexists; split; [exact EG|].
  set (st1 := with_cursor_col (Z.max 0 (n - 1)) st).
  destruct (ensure_screen_size_cursor (cursor_row st) (Z.max 0 (n - 1)) st1) as [-> ->].
  repeat split. intros r c ch Hc.
  apply (ensure_screen_size_keeps (cursor_row st) (Z.max 0 (n - 1)) st1). exact Hc.
Qed.

(** [ESC[0A] on the example grid: the count 0 is taken as it is, and the
    cursor stays on its row. *)
Lemma movement_sequences_move_by_count_witness :
  forallb is_digit (codes "0") = true /\ int_or (codes "0") 1 = OK 0 /\
  exists st', process_escape_sequence (codes "[0A") example_grid = OK st' /\
              cursor_row st' = cursor_row example_grid.
Proof.
  split; [reflexivity|]. split; [reflexivity|].
  destruct (proj1 (movement_sequences_move_by_count (codes "0") 0 example_grid
                     eq_refl eq_refl)) as (st' & H & R & _).
  exists st'. split; [exact H | exact R].
Defined.

(** ** The width of the grid *)

Lemma clear_line_max_cols (mode : Z) (st st' : state) :
  clear_line mode st = OK st' -> max_cols st' = max_cols st.
Proof.
  intros H. apply clear_line_updated in H as [->|H]; [reflexivity|].
  apply row_updated_cursor in H. apply H.
Qed.

Lemma insert_char_max_cols (ch : char) (st st' : state) :
  insert_char ch st = OK st' -> max_cols st <= max_cols st'.
Proof.
  unfold insert_char; intros H.
  destruct (N.eqb ch LF).
  { injection H as <-.
    apply (ensure_screen_size_max_cols _ _
             (with_cursor_col 0 (with_cursor_row (cursor_row st + 1) st))). }
  destruct (N.eqb ch CR); [injection H as <-; simpl; lia|].
  destruct (N.eqb ch TAB).
  { injection H as <-.
    apply (ensure_screen_size_max_cols _ _
             (with_cursor_col ((cursor_col st / 8 + 1) * 8) st)). }
  destruct (32 <=? ord ch); [|injection H as <-; lia].
  apply bind_ok in H as (st2 & H2 & H). injection H as <-.
  apply write_cell_updated, row_updated_cursor in H2 as (_ & _ & E & _).
  cbn [max_cols with_cursor_col]. rewrite E.
  apply ensure_screen_size_max_cols.
Qed.

Lemma insert_text_max_cols (text : str) (st st' : state) :
  insert_text text st = OK st' -> max_cols st <= max_cols st'.
Proof.
  revert st; induction text as [|ch text IH]; simpl; intros st H.
  - injection H as <-; lia.
  - apply bind_ok in H as (st1 & H1 & H).
    apply insert_char_max_cols in H1. apply IH in H. lia.
Qed.

Lemma process_escape_sequence_max_cols (sequence : str) (st : state) :
  match process_escape_sequence sequence st with
  | OK st' => max_cols st <= max_cols st'
  | Error _ => True
  end.
Proof.
  apply process_escape_sequence_cases; auto; try lia.
  - intros r c _ _. unfold set_cursor.
    apply (ensure_screen_size_max_cols _ _
             (with_cursor_col (Z.max 0 (c - 1)) (with_cursor_row (Z.max 0 (r - 1)) st))).
  - intros; simpl; lia.
  - intros n _. unfold move_cursor_down.
    apply (ensure_screen_size_max_cols _ _ (with_cursor_row (cursor_row st + n) st)).
  - intros n _. unfold move_cursor_forward.
    apply (ensure_screen_size_max_cols _ _ (with_cursor_col (cursor_col st + n) st)).
  - intros; simpl; lia.
  - intros n _.
    apply (ensure_screen_size_max_cols _ _ (with_cursor_col (Z.max 0 (n - 1)) st)).
  - intros n. destruct (clear_line n st) as [st'|e] eqn:E; [|exact I].
    apply clear_line_max_cols in E. lia.
  - intros n. unfold clear_screen. destruct (n =? 2); simpl; lia.
Qed.

Lemma process_loop_max_cols (fuel : nat) (content : str) (st st' : state) :
  process_loop fuel content st = OK st' -> max_cols st <= max_cols st'.
Proof.
  revert content st; induction fuel as [|fuel IH]; intros content st H.
  - destruct content; simpl in H; [injection H as <-; lia | discriminate].
  - destruct content as [|c rest]; [injection H as <-; lia|].
    rewrite process_loop_step in H.
    destruct (if N.eqb c ESC && (1 <? Z.of_nat (length (c :: rest)))
              then re_match_ansi (c :: rest) else None) as [sequence|].
    + apply bind_ok in H as (st1 & H1 & H).
      pose proof (process_escape_sequence_max_cols (tl sequence) st) as P.
      rewrite H1 in P. apply IH in H. lia.
    + apply bind_ok in H as (st1 & H1 & H). apply IH in H.
      destruct (negb (N.eqb c ESC)).
      * apply insert_text_max_cols in H1. lia.
      * injection H1 as <-. exact H.
Qed.

(** X18. The grid stays rectangular and never gets narrower.  Along the
    processing of any input from a well-formed state, the standing width
    [max_cols] does not decrease (a full erase empties the grid but keeps
    the width reached) and every row is exactly that wide; from the initial
    state the width is at least 200 and every row has exactly [max_cols]
    cells. *)
Theorem grid_stays_rectangular :
  (forall st content st',
      wf st -> process_loop (length content) content st = OK st' ->
      rect st' /\ max_cols st <= max_cols st') /\
  (forall content st',
      process_loop (length content) content init_state = OK st' ->
      200 <= max_cols st' /\
      Forall (fun row => Z.of_nat (length row) = max_cols st') (screen st')).
Proof.
  assert (G : forall st content st',
             wf st -> process_loop (length content) content st = OK st' ->
             rect st' /\ max_cols st <= max_cols st').
  { intros st content st' Hwf H. split.
    - pose proof (process_loop_wf (length content) content st (le_n _) Hwf) as P.
      rewrite H in P. apply P.
    - eapply process_loop_max_cols; eauto. }
  split; [exact G|].
  intros content st' H.
  destruct (G init_state content st' init_state_wf H) as [R M].
  cbn [max_cols init_state] in M. split; [exact M|].
  unfold rect in R. eapply Forall_impl; [|exact R].
  cbn beta. intros row Hrow. lia.
Qed.

(** A line of 201 characters widens the grid; after [ESC[2J] and one more
    character the one row has the width reached. *)
Lemma grid_stays_rectangular_witness :
  exists st',
    process_loop 206 (repeat (chr "x") 201 ++ ESC :: codes "[2Jy") init_state = OK st' /\
    200 <= max_cols st' /\
    Forall (fun row => Z.of_nat (length row) = max_cols st') (screen st').
Proof.
  destruct (process_loop 206 (repeat (chr "x") 201 ++ ESC :: codes "[2Jy") init_state)
    as [st'|e] eqn:E; [|vm_compute in E; discriminate].
  exists st'. split; [reflexivity|].
  exact (proj2 grid_stays_rectangular
           (repeat (chr "x") 201 ++ ESC :: codes "[2Jy") st' E).
Defined.

(** ** When a sequence fails *)





(** ** Full erase *)

Lemma cleared_on_line (st : state) :
  on_line [] [] 0 (clear_screen 2 st).
Proof.
  unfold on_line, clear_screen. cbn.
  repeat split; try lia; [constructor|]. right. split; reflexivity.
Qed.

(** X20. A full erase discards all that was written before it.  For any
    text [pre] without escape marker, followed by [ESC[2J] and by a text of
    printable characters and line feeds, the result is the result for that
    last text alone. *)
Theorem full_erase_discards_what_precedes (pre text : str) :
  Forall (fun ch => ch <> ESC) pre ->
  Forall (fun ch => 32 <= ord ch \/ ch = LF) text ->
  run (pre ++ ESC :: codes "[2J" ++ text) = run text.
Proof.
  intros Hpre Htext. rewrite (run_plain_text text Htext).
  unfold run, process_content.
  rewrite process_loop_text by exact Hpre.
  destruct (insert_text_wf pre init_state init_state_wf) as (st1 & -> & _).
  cbn [bind].
  pose proof (process_loop_matched (ESC :: codes "[2J") (codes "[2J") text st1 eq_refl)
    as P.
  assert (Q : process_loop (length (ESC :: codes "[2J" ++ text))
                           (ESC :: codes "[2J" ++ text) st1
              = insert_text text (clear_screen 2 st1)).
  { etransitivity.
    - apply P. apply (re_match_ansi_csi (codes "2") (chr "J") text); reflexivity.
    - change (process_escape_sequence (codes "[2J") st1) with (OK (clear_screen 2 st1)).
      cbn [bind]. apply process_loop_plain.
      eapply Forall_impl; [|exact Htext]. intros ch; apply printable_not_ESC. }
  rewrite Q.
  destruct (insert_text_lines text [] [] (clear_screen 2 st1) Htext eq_refl
              (cleared_on_line st1)) as (st' & -> & Hs).
  cbn [bind app] in *. rewrite (rows_show_text _ _ Hs). reflexivity.
Qed.

(** Two lines and a bell, the erase, then "ok". *)
Lemma full_erase_discards_what_precedes_witness :
  Forall (fun ch => ch <> ESC) (codes "one" ++ LF :: 7%N :: codes "two") /\
  Forall (fun ch => 32 <= ord ch \/ ch = LF) (codes "ok") /\
  run ((codes "one" ++ LF :: 7%N :: codes "two") ++ ESC :: codes "[2J" ++ codes "ok")
  = run (codes "ok").
Proof.
  assert (H1 : Forall (fun ch => ch <> ESC) (codes "one" ++ LF :: 7%N :: codes "two"))
    by (repeat (apply Forall_cons; [discriminate|]); apply Forall_nil).
  assert (H2 : Forall (fun ch => 32 <= ord ch \/ ch = LF) (codes "ok"))
    by (repeat (apply Forall_cons; [left; vm_compute; discriminate|]); apply Forall_nil).
  split; [exact H1|]. split; [exact H2|].
  exact (full_erase_discards_what_precedes _ _ H1 H2).
Defined.
